(** * The VAA processor program (teal/wormhole/pyteal/vaa-processor.py)

    A shallow embedding of the PyTeal application that works in tandem with
    the stateless signature verifier: the administrative call [setvphash],
    the per-step call [verify] with its guardian checks, the finalization
    audit and the payload router [commit_vaa].

    PyTeal expressions denote AVM (TEAL v5) computations.  They are embedded
    as functions in a small monad that threads the mutable part of the
    machine (scratch space and application global state) and records the
    ways an evaluation can end: with a value, with a [Return], with a
    failure (a failed [Assert] or an opcode that errors), or by exhausting
    the opcode budget. *)

From Stdlib Require Import ZArith List Bool Lia.
From Stdlib Require Import Strings.Byte Strings.String.
From stdpp Require Import base decidable countable gmap list.

Local Open Scope Z_scope.

(** ** Byte strings and stack values *)

#[global] Instance byte_eq_decision : EqDecision byte := Byte.byte_eq_dec.

#[global] Instance byte_countable : Countable byte :=
  inj_countable Byte.to_N Byte.of_N Byte.of_to_N.

(** A stack value of the AVM is either a uint64 or a byte string. *)
Inductive TealValue : Type :=
| Uint (n : Z)
| Bytes (b : list byte).

#[global] Instance TealValue_eq_decision : EqDecision TealValue.
Proof. solve_decision. Defined.

Definition uint64_max : Z := 2 ^ 64 - 1.

(** [Bytes("...")] literals of the program, as byte strings. *)
Definition bytes_of_string (s : string) : list byte := list_byte_of_string s.

Definition byte_of_Z (z : Z) : byte :=
  match Byte.of_N (Z.to_N (z mod 256)) with
  | Some b => b
  | None => x00
  end.

Definition Z_of_byte (b : byte) : Z := Z.of_N (Byte.to_N b).

(** Big-endian value of a byte string. *)
Definition be_decode (b : list byte) : Z :=
  fold_left (fun acc x => acc * 256 + Z_of_byte x) b 0.

(** Big-endian encoding on [n] bytes. *)
Fixpoint be_encode (n : nat) (z : Z) : list byte :=
  match n with
  | O => []
  | S n' => be_encode n' (z / 256) ++ [byte_of_Z z]
  end.

(** ** AVM opcodes used by the program

    Opcodes that can make the program fail return [option]. *)

(** [btoi]: big-endian decoding; fails on an input longer than 8 bytes. *)
Definition Btoi (b : list byte) : option Z :=
  if (length b <=? 8)%nat then Some (be_decode b) else None.

(** [itob]: the 8-byte big-endian encoding of a uint64. *)
Definition Itob (n : Z) : list byte := be_encode 8 n.

(** [len]. *)
Definition Len (b : list byte) : Z := Z.of_nat (length b).

(** [extract3 A S L]: bytes [[S, S+L)] of [A]; fails when [S+L] exceeds the
    length of [A]. *)
Definition Extract (b : list byte) (start len : Z) : option (list byte) :=
  if (0 <=? start) && (0 <=? len) && (start + len <=? Len b)
  then Some (take (Z.to_nat len) (drop (Z.to_nat start) b))
  else None.

(** [==] and [!=] fail when the operands have different types. *)
Definition Eq (a b : TealValue) : option Z :=
  match a, b with
  | Uint x, Uint y => Some (Z.b2z (x =? y))
  | Bytes x, Bytes y => Some (Z.b2z (bool_decide (x = y)))
  | _, _ => None
  end.

Definition Neq (a b : TealValue) : option Z :=
  match Eq a b with
  | Some c => Some (1 - c)
  | None => None
  end.

(** uint64 arithmetic fails on overflow and underflow. *)
Definition Add (a b : Z) : option Z :=
  if a + b <=? uint64_max then Some (a + b) else None.

Definition Minus (a b : Z) : option Z :=
  if b <=? a then Some (a - b) else None.

Definition Mul (a b : Z) : option Z :=
  if a * b <=? uint64_max then Some (a * b) else None.

Definition Lt (a b : Z) : Z := Z.b2z (a <? b).

(** [&&] over all the arguments: every argument is evaluated (there is no
    short circuit) and the result is 1 when all are non-zero. *)
Definition And (cs : list Z) : Z :=
  if forallb (fun c => negb (c =? 0)) cs then 1 else 0.

(** [getbit]: on a uint64, bit 0 is the least significant bit; on a byte
    string, bit 0 is the leftmost bit of the leftmost byte. *)
Definition GetBit (v : TealValue) (i : Z) : option Z :=
  match v with
  | Uint n =>
      if (0 <=? i) && (i <? 64) then Some (Z.b2z (Z.testbit n i)) else None
  | Bytes b =>
      if 0 <=? i then
        match b !! Z.to_nat (i / 8) with
        | Some x => Some (Z.b2z (Z.testbit (Z_of_byte x) (7 - i mod 8)))
        | None => None
        end
      else None
  end.

Definition set_or_clear (n i x : Z) : Z :=
  if x =? 0 then Z.clearbit n i else Z.setbit n i.

(** [setbit]: same bit order; the new bit must be 0 or 1. *)
Definition SetBit (v : TealValue) (i x : Z) : option TealValue :=
  if (0 <=? x) && (x <=? 1) then
    match v with
    | Uint n =>
        if (0 <=? i) && (i <? 64) then Some (Uint (set_or_clear n i x)) else None
    | Bytes b =>
        if 0 <=? i then
          match b !! Z.to_nat (i / 8) with
          | Some y =>
              Some (Bytes (<[Z.to_nat (i / 8) :=
                             byte_of_Z (set_or_clear (Z_of_byte y) (7 - i mod 8) x)]> b))
          | None => None
          end
        else None
    end
  else None.

(** ** Transactions, the group, and the machine state *)

Inductive TxnType : Type :=
| Payment | KeyRegistration | AssetConfig | AssetTransfer | AssetFreeze
| ApplicationCall.

#[global] Instance TxnType_eq_decision : EqDecision TxnType.
Proof. solve_decision. Defined.

(** The completion action of an application call ([Txn.on_completion()]). *)
Inductive OnComplete : Type :=
| NoOp | OptIn | CloseOut | ClearState | UpdateApplication | DeleteApplication.

#[global] Instance OnComplete_eq_decision : EqDecision OnComplete.
Proof. solve_decision. Defined.

(** The fields of a transaction that the program reads.  [scratch_space] is
    the scratch space the transaction's program left behind; it is what
    [ImportScratchValue] reads and is meaningful for earlier application
    calls of the group only. *)
Record Transaction : Type := mkTransaction {
  sender : list byte;
  type_enum : TxnType;
  application_id : Z;
  application_args : list (list byte);
  note : list byte;
  scratch_space : gmap Z TealValue
}.

(** The read-only environment of one application call: the transactions of
    the group before it, the transaction itself, the ones after it, and the
    creator of the application. *)
Record Env : Type := mkEnv {
  earlier : list Transaction;
  Txn : Transaction;
  later : list Transaction;
  creator_address : list byte
}.

Definition group (e : Env) : list Transaction := earlier e ++ Txn e :: later e.
Definition group_index (e : Env) : Z := Z.of_nat (length (earlier e)).
Definition group_size (e : Env) : Z := Z.of_nat (length (group e)).

(** The mutable state: the scratch space of the running call and the global
    state of the application. *)
Record State : Type := mkState {
  scratch : gmap Z TealValue;
  globals : gmap (list byte) TealValue
}.

(** ** The evaluation monad *)

Inductive result (A : Type) : Type :=
| Value (a : A) (s : State)
| Returned (v : Z) (s : State)
| Failed
| OutOfBudget.

Arguments Value {A} a s.
Arguments Returned {A} v s.
Arguments Failed {A}.
Arguments OutOfBudget {A}.

Definition M (A : Type) : Type := State -> result A.

Definition ret {A} (a : A) : M A := fun s => Value a s.

Definition bind {A B} (m : M A) (k : A -> M B) : M B := fun s =>
  match m s with
  | Value a s' => k a s'
  | Returned v s' => Returned v s'
  | Failed => Failed
  | OutOfBudget => OutOfBudget
  end.

#[global] Instance M_ret : MRet M := @ret.
#[global] Instance M_bind : MBind M := fun A B k m => bind m k.

Definition lift {A} (o : option A) : M A := fun s =>
  match o with
  | Some a => Value a s
  | None => Failed
  end.

(** [Return(v)] and [Approve()]. *)
Definition Return {A} (v : Z) : M A := fun s => Returned v s.
Definition Approve {A} : M A := Return 1.

(** [Assert(c)]. *)
Definition Assert (c : Z) : M unit := fun s =>
  if c =? 0 then Failed else Value tt s.

(** [If(c).Then(body)] without an else branch. *)
Definition IfThen (c : Z) (body : M unit) : M unit :=
  if c =? 0 then ret tt else body.

(** A value that an arithmetic opcode consumes must be a uint64. *)
Definition as_uint (v : TealValue) : M Z :=
  match v with
  | Uint n => ret n
  | Bytes _ => lift None
  end.

(** Scratch slots and global state; both read as uint64 0 when unset. *)
Definition load (slot : Z) : M TealValue := fun s =>
  Value (default (Uint 0) (scratch s !! slot)) s.

Definition store (slot : Z) (v : TealValue) : M unit := fun s =>
  Value tt (mkState (<[slot := v]> (scratch s)) (globals s)).

Definition globalGet (key : list byte) : M TealValue := fun s =>
  Value (default (Uint 0) (globals s !! key)) s.

(** [app_global_put] fails on a key longer than 64 bytes and on a byte
    string whose length added to that of the key exceeds 128.  The number
    of entries is bounded by the schema declared when the application is
    created, which no part of the program fixes: the application is taken
    to be created with room for the entries that the program stores. *)
Definition globalPut (key : list byte) (v : TealValue) : M unit := fun s =>
  if (Len key <=? 64)
     && match v with
        | Uint _ => true
        | Bytes b => Len key + Len b <=? 128
        end
  then Value tt (mkState (scratch s) (<[key := v]> (globals s)))
  else Failed.

(** A call of a [@Subroutine(TealType.uint64)]: the [Return] of the body is
    the value of the call. *)
Definition Subroutine (body : M unit) : M Z := fun s =>
  match body s with
  | Returned v s' => Value v s'
  | Value _ _ => Failed
  | Failed => Failed
  | OutOfBudget => OutOfBudget
  end.

(** [For(init, cond, step).Do(body)].  Every iteration consumes opcode
    budget; [fuel] bounds the number of times the condition is evaluated,
    and a loop that needs more ends the program with [OutOfBudget]. *)
Fixpoint For_loop (fuel : nat) (cond : M Z) (step body : M unit) : M unit :=
  match fuel with
  | O => fun _ => OutOfBudget
  | S fuel' =>
      c ← cond;
      if c =? 0 then ret tt
      else body;; step;; For_loop fuel' cond step body
  end.

Definition For (fuel : nat) (init : M unit) (cond : M Z) (step body : M unit)
  : M unit :=
  init;; For_loop fuel cond step body.

(** [Cond([c1, b1], [c2, b2], ...)]: the conditions are evaluated in order
    and the branch of the first one that holds is run; when none holds the
    program fails ([err]). *)
Fixpoint Cond (branches : list (M Z * M unit)) : M unit :=
  match branches with
  | [] => lift None
  | (c, b) :: rest => v ← c; if v =? 0 then Cond rest else b
  end.

(** ** The program *)

Section VaaProcessor.

(** The constant [MAX_SIGNATURES_PER_VERIFICATION_STEP] is imported from
    [globals.py]; the program is embedded for an arbitrary value of it. *)
Variable MAX_SIGNATURES_PER_VERIFICATION_STEP : Z.

(** Modelled from the spec: [get_group_size] is imported from [globals.py],
    which is not part of the sources at hand.  The spec defines the step
    count as [ceil(guardianCount / maxSignaturesPerStep)]. *)
Definition get_group_size (num_guardians : Z) : Z :=
  num_guardians / MAX_SIGNATURES_PER_VERIFICATION_STEP
  + (if num_guardians mod MAX_SIGNATURES_PER_VERIFICATION_STEP =? 0 then 0 else 1).

(** Modelled from the spec: the signer range of step [i], which the spec
    gives as [[i*maxSignaturesPerStep, min((i+1)*maxSignaturesPerStep,
    guardianCount))]. *)
Definition signer_range_start (step : Z) : Z :=
  step * MAX_SIGNATURES_PER_VERIFICATION_STEP.

Definition signer_range_end (step num_guardians : Z) : Z :=
  Z.min ((step + 1) * MAX_SIGNATURES_PER_VERIFICATION_STEP) num_guardians.

(** Modelled from the spec: [get_sig_count_in_step] is imported from
    [globals.py], which is not part of the sources at hand.  The spec says
    that the signer range of a step determines how many guardian keys the
    step carries: the count is the size of that range. *)
Definition get_sig_count_in_step (step num_guardians : Z) : Z :=
  Z.max 0 (signer_range_end step num_guardians - signer_range_start step).

Definition SLOTID_TEMP_0 : Z := 251.
Definition SLOTID_VERIFIED_BIT : Z := 254.

Definition GOVERNANCE_CHAIN_ID_TEST : Z := 3.
Definition GOVERNANCE_CONTRACT_ID_TEST : Z := 4.
Definition PYTH2WORMHOLE_CHAIN_ID_TEST : Z := 5.
Definition PYTH2WORMHOLE_CONTRACT_ID_TEST : Z := 6.

Definition VAA_RECORD_EMITTER_CHAIN_POS : Z := 8.
Definition VAA_RECORD_EMITTER_CHAIN_LEN : Z := 2.
Definition VAA_RECORD_EMITTER_ADDR_POS : Z := 10.
Definition VAA_RECORD_EMITTER_ADDR_LEN : Z := 32.

(** [Txn.application_args[k]] fails when the transaction has no such
    argument. *)
Definition application_arg (e : Env) (k : nat) : M (list byte) :=
  lift (application_args (Txn e) !! k).

Definition application_args_length (e : Env) : Z :=
  Z.of_nat (length (application_args (Txn e))).

Definition VERIFY_ARG_GUARDIAN_KEY_SUBSET (e : Env) : M (list byte) :=
  application_arg e 1.
Definition VERIFY_ARG_GUARDIAN_SET_SIZE (e : Env) : M (list byte) :=
  application_arg e 2.
Definition VERIFY_ARG_PAYLOAD (e : Env) : M (list byte) := ret (note (Txn e)).

Definition STATELESS_LOGIC_HASH : M TealValue :=
  globalGet (bytes_of_string "vphash").
Definition NUM_GUARDIANS : M TealValue :=
  globalGet (bytes_of_string "gscount").

(** [SLOT_TEMP.load()], used as a uint64 loop counter. *)
Definition SLOT_TEMP_load : M Z := v ← load SLOTID_TEMP_0; as_uint v.

(** [Gtxn[i]] fails when [i] is not an index of the group. *)
Definition Gtxn (e : Env) (i : Z) : M Transaction :=
  lift (if 0 <=? i then group e !! Z.to_nat i else None).

(** [ImportScratchValue(i, slot)] ([gloads]): the scratch slot left by
    transaction [i] of the group.  It fails unless transaction [i] is an
    application call that comes before the running one. *)
Definition ImportScratchValue (e : Env) (i slot : Z) : M TealValue :=
  t ← Gtxn e i;
  if bool_decide (type_enum t = ApplicationCall) && (i <? group_index e)
  then ret (default (Uint 0) (scratch_space t !! slot))
  else lift None.

(** [bootstrap] ends with [Approve()], which exits the program (opcode
    [return]) also inside a subroutine: the call stores the hash and ends
    the program, it never hands a value back to its caller. *)
Definition bootstrap (e : Env) : M Z :=
  h ← application_arg e 0;
  globalPut (bytes_of_string "vphash") (Bytes h);;
  Approve.

Definition is_creator (e : Env) : M Z :=
  lift (Eq (Bytes (sender (Txn e))) (Bytes (creator_address e))).

Definition check_guardian_key_subset (fuel : nat) (e : Env) : M Z :=
  Subroutine (
    For fuel
      (store SLOTID_TEMP_0 (Uint 0))
      (i ← SLOT_TEMP_load;
       n ← NUM_GUARDIANS;
       n ← as_uint n;
       ret (Lt i (get_sig_count_in_step (group_index e) n)))
      (i ← SLOT_TEMP_load;
       i' ← lift (Add i 1);
       store SLOTID_TEMP_0 (Uint i'))
      (i ← SLOT_TEMP_load;
       stored ← globalGet (Itob i);
       keys ← VERIFY_ARG_GUARDIAN_KEY_SUBSET e;
       j ← SLOT_TEMP_load;
       offset ← lift (Mul j 64);
       key ← lift (Extract keys offset 64);
       c ← lift (Neq stored (Bytes key));
       IfThen c (Return 0));;
    Return 1).

Definition check_guardian_set_size (e : Env) : M Z :=
  n ← NUM_GUARDIANS;
  a ← VERIFY_ARG_GUARDIAN_SET_SIZE e;
  claimed ← lift (Btoi a);
  lift (Eq n (Uint claimed)).

Definition handle_governance : M Z := ret 1.

Definition handle_pyth_price_ticker : M Z := ret 1.

(** The two header fields that [commit_vaa] binds to Python variables:
    [Btoi] applied to the [Extract] of a fixed range of the payload. *)
Definition emitter_chain_field (e : Env) : M (list byte) :=
  payload ← VERIFY_ARG_PAYLOAD e;
  lift (Extract payload VAA_RECORD_EMITTER_CHAIN_POS
                VAA_RECORD_EMITTER_CHAIN_LEN).

Definition emitter_address_field (e : Env) : M (list byte) :=
  payload ← VERIFY_ARG_PAYLOAD e;
  lift (Extract payload VAA_RECORD_EMITTER_ADDR_POS
                VAA_RECORD_EMITTER_ADDR_LEN).

Definition chainId (e : Env) : M Z :=
  field ← emitter_chain_field e;
  lift (Btoi field).

Definition contractId (e : Env) : M Z :=
  field ← emitter_address_field e;
  lift (Btoi field).

(** The [Seq] that [commit_vaa] returns, as a function of the two
    expressions it refers to. *)
Definition commit_vaa_body (chainId contractId : M Z) : M unit :=
  c ← chainId;
  a ← contractId;
  if And [Z.b2z (c =? GOVERNANCE_CHAIN_ID_TEST);
          Z.b2z (a =? GOVERNANCE_CONTRACT_ID_TEST)] =? 0
  then
    c ← chainId;
    a ← contractId;
    if And [Z.b2z (c =? PYTH2WORMHOLE_CHAIN_ID_TEST);
            Z.b2z (a =? GOVERNANCE_CONTRACT_ID_TEST)] =? 0
    then Return 0
    else (v ← handle_pyth_price_ticker; Return v)
  else (v ← handle_governance; Return v).

Definition commit_vaa (e : Env) : M Z :=
  Subroutine (commit_vaa_body (chainId e) (contractId e)).

Definition check_final_verification_state (fuel : nat) (e : Env) : M Z :=
  Subroutine (
    For fuel
      (store SLOTID_TEMP_0 (Uint 0))
      (i ← SLOT_TEMP_load;
       ret (Lt i (group_size e)))
      (i ← SLOT_TEMP_load;
       i' ← lift (Add i 0);
       store SLOTID_TEMP_0 (Uint i'))
      (i ← SLOT_TEMP_load;
       t ← Gtxn e i;
       t' ← Gtxn e i;
       v ← ImportScratchValue e i SLOTID_VERIFIED_BIT;
       bit ← lift (GetBit v i);
       Assert (And [Z.b2z (bool_decide (type_enum t = ApplicationCall));
                    Z.b2z (application_id t' =? application_id (Txn e));
                    Z.b2z (bit =? 1)]));;
    Return 1).

Definition setvphash (e : Env) : M unit :=
  c1 ← is_creator e;
  a1 ← application_arg e 1;
  Assert (And [c1;
               Z.b2z (group_size e =? 1);
               Z.b2z (application_args_length e =? 2);
               Z.b2z (Len a1 =? 32)]);;
  h ← application_arg e 1;
  globalPut (bytes_of_string "vphash") (Bytes h);;
  Approve.

Definition verify (fuel : nat) (e : Env) : M unit :=
  store SLOTID_VERIFIED_BIT (Uint 0);;
  n ← NUM_GUARDIANS;
  n ← as_uint n;
  h ← STATELESS_LOGIC_HASH;
  c3 ← lift (Eq (Bytes (sender (Txn e))) h);
  c4 ← check_guardian_set_size e;
  c5 ← check_guardian_key_subset fuel e;
  Assert (And [Z.b2z (group_size e =? get_group_size n);
               Z.b2z (application_args_length e =? 3);
               c3; c4; c5]);;
  bits ← load SLOTID_VERIFIED_BIT;
  bits' ← lift (SetBit bits (group_index e) 1);
  store SLOTID_VERIFIED_BIT bits';;
  last ← lift (Minus (group_size e) 1);
  IfThen (Z.b2z (group_index e =? last))
    (ok ← check_final_verification_state fuel e;
     Assert ok;;
     v ← commit_vaa e;
     Return v);;
  Approve.

(** [METHOD == Bytes(name)]. *)
Definition METHOD_is (e : Env) (name : string) : M Z :=
  method ← application_arg e 0;
  lift (Eq (Bytes method) (Bytes (bytes_of_string name))).

Definition handle_create (e : Env) : M unit := v ← bootstrap e; Return v.
Definition handle_update (e : Env) : M unit := v ← is_creator e; Return v.
Definition handle_delete (e : Env) : M unit := v ← is_creator e; Return v.

Definition handle_noop (fuel : nat) (e : Env) : M unit :=
  Cond [ (METHOD_is e "setvphash", setvphash e);
         (METHOD_is e "verify", verify fuel e) ].

(** The approval program.  [on_completion] is [Txn.on_completion()], the
    one field of the running transaction that only this dispatch reads.
    The AVM runs the approval program for every completion action except
    [ClearState], for which it runs [clear_state_program]. *)
Definition vaa_processor_program (fuel : nat) (on_completion : OnComplete)
    (e : Env) : M unit :=
  Cond [ (ret (Z.b2z (application_id (Txn e) =? 0)), handle_create e);
         (ret (Z.b2z (bool_decide (on_completion = UpdateApplication))),
          handle_update e);
         (ret (Z.b2z (bool_decide (on_completion = DeleteApplication))),
          handle_delete e);
         (ret (Z.b2z (bool_decide (on_completion = NoOp))), handle_noop fuel e) ].

Definition clear_state_program : M unit := Return 1.

End VaaProcessor.

(** ** How a call acts on the ledger

    A call is approved when its program ends with a non-zero [Return].  The
    state changes of a call that is not approved are discarded. *)

Definition approved {A} (r : result A) : Prop :=
  ∃ v s', r = Returned v s' ∧ v ≠ 0.

Definition state_after {A} (s : State) (r : result A) : State :=
  match r with
  | Returned v s' => if v =? 0 then s else s'
  | _ => s
  end.

(** ** Fixtures: a registry of four guardians and a step capacity of two *)

Module Fixture.

Definition guardian_key (n : Z) : list byte := replicate 64 (byte_of_Z (16 + n)).

Definition verifier : list byte := replicate 32 x01.
Definition owner : list byte := replicate 32 x02.
Definition app : Z := 77.

Definition registry : gmap (list byte) TealValue :=
  <[bytes_of_string "vphash" := Bytes verifier]>
  (<[bytes_of_string "gscount" := Uint 4]>
  (<[Itob 0 := Bytes (guardian_key 0)]>
  (<[Itob 1 := Bytes (guardian_key 1)]>
  (<[Itob 2 := Bytes (guardian_key 2)]>
  (<[Itob 3 := Bytes (guardian_key 3)]> ∅))))).

Definition fresh : State := mkState ∅ registry.

(** A header with the emitter chain at bytes 8-9 and the emitter address at
    bytes 10-41, followed by a one-byte body. *)
Definition payload (chain address : Z) : list byte :=
  replicate 8 x00 ++ be_encode 2 chain ++ be_encode 32 address ++ [x2a].

(** A [verify] call carrying the given key subset, and the scratch space it
    leaves when it has marked [bits]. *)
Definition step (keys vaa : list byte) (bits : Z) : Transaction :=
  mkTransaction verifier ApplicationCall app
    [bytes_of_string "verify"; keys; Itob 4] vaa
    {[ SLOTID_VERIFIED_BIT := Uint bits ]}.

Definition keys01 : list byte := guardian_key 0 ++ guardian_key 1.
Definition keys23 : list byte := guardian_key 2 ++ guardian_key 3.

(** Step 0 of a two-step unit. *)
Definition first_step (vaa : list byte) : Env :=
  mkEnv [] (step keys01 vaa 0) [step keys23 vaa 0] owner.

(** Step 1, the last one, carrying [keys], after a step 0 that marked its
    bit. *)
Definition last_step (keys vaa : list byte) : Env :=
  mkEnv [step keys01 vaa 1] (step keys vaa 0) [] owner.

Definition setvphash_call (caller : list byte) (args : list (list byte)) : Env :=
  mkEnv [] (mkTransaction caller ApplicationCall app args [] ∅) [] owner.

Definition new_hash : list byte := replicate 32 x03.

End Fixture.

(** ** Notions used in the statements *)

(** The conditions under which [setvphash] may install the hash [h]. *)
Definition setvphash_allowed (e : Env) (h : list byte) : Prop :=
  sender (Txn e) = creator_address e
  ∧ group_size e = 1
  ∧ length (application_args (Txn e)) = 2%nat
  ∧ application_args (Txn e) !! 1%nat = Some h
  ∧ length h = 32%nat.

Definition set_vphash (h : list byte) (s : State) : State :=
  mkState (scratch s) (<[bytes_of_string "vphash" := Bytes h]> (globals s)).

(** The state in which the audit loop runs: the counter slot holds 0. *)
Definition audit_state (s : State) : State :=
  mkState (<[SLOTID_TEMP_0 := Uint 0]> (scratch s)) (globals s).

(** The state in which the checks of [verify] run: the bit field is reset. *)
Definition verify_state (s : State) : State :=
  mkState (<[SLOTID_VERIFIED_BIT := Uint 0]> (scratch s)) (globals s).

(** The k-th key carried by the call equals the registry entry stored
    under [Itob k]. *)
Definition key_matches (e : Env) (s : State) (k : Z) : Prop :=
  ∃ keys key,
    VERIFY_ARG_GUARDIAN_KEY_SUBSET e s = Value keys s
    ∧ Extract keys (k * 64) 64 = Some key
    ∧ globalGet (Itob k) s = Value (Bytes key) s.

(** What transaction 0 of the group must be for the assertion of the
    finalization audit to pass at index 0. *)
Definition audit_index_0_passes (e : Env) : Prop :=
  ∃ t, group e !! 0%nat = Some t
       ∧ type_enum t = ApplicationCall
       ∧ 0 < group_index e
       ∧ application_id t = application_id (Txn e)
       ∧ GetBit (default (Uint 0) (scratch_space t !! SLOTID_VERIFIED_BIT)) 0
         = Some 1.

(** One call of the application on the ledger: the clear-state program runs
    when the completion action is [ClearState] and the approval program
    otherwise; the program starts with an empty scratch space, and its
    changes to the global state are kept only when the call is approved. *)
Definition call_program (capacity : Z) (fuel : nat)
    (g : gmap (list byte) TealValue) (c : OnComplete * Env)
  : gmap (list byte) TealValue :=
  globals (state_after (mkState ∅ g)
             (match c.1 with
              | ClearState => clear_state_program (mkState ∅ g)
              | on_completion =>
                  vaa_processor_program capacity fuel on_completion c.2
                    (mkState ∅ g)
              end)).

(** A sequence of calls, each one in a group of its own choosing. *)
Definition run_calls (capacity : Z) (fuel : nat)
    (g : gmap (list byte) TealValue) (calls : list (OnComplete * Env))
  : gmap (list byte) TealValue :=
  fold_left (call_program capacity fuel) calls g.

(** [frame s s']: from [s] to [s'] the global state is unchanged and so is
    every scratch slot except the loop counter. *)
Definition frame (s s' : State) : Prop :=
  globals s' = globals s
  ∧ ∀ k, k ≠ SLOTID_TEMP_0 → scratch s' !! k = scratch s !! k.

Definition framed {A} (m : M A) : Prop :=
  ∀ s, match m s with
       | Value _ s' | Returned _ s' => frame s s'
       | Failed | OutOfBudget => True
       end.

Create HintDb framed.

Ltac unfold_monad :=
  unfold mbind, M_bind, bind, mret, M_ret, ret, lift, Return, Approve in *.

(** ** The step partitioner *)

Section StepPartitioner.

Variable capacity : Z.
Hypothesis capacity_pos : 1 ≤ capacity.

Lemma get_group_size_bounds (n : Z) :
  0 ≤ n →
  (get_group_size capacity n - 1) * capacity < n ≤ get_group_size capacity n * capacity
  ∨ (n = 0 ∧ get_group_size capacity n = 0).
Proof.
  intros Hn. unfold get_group_size.
  pose proof (Z.div_mod n capacity ltac:(lia)) as Hdm.
  pose proof (Z.mod_pos_bound n capacity ltac:(lia)) as Hmod.
  destruct (Z.eqb_spec (n mod capacity) 0) as [Hz | Hz].
  - destruct (Z.eq_dec n 0) as [-> | Hn0].
    + right. rewrite Z.div_0_l by lia. lia.
    + left. nia.
  - left. nia.
Qed.

Lemma get_group_size_ceil (n : Z) :
  1 ≤ n →
  (get_group_size capacity n - 1) * capacity < n ≤ get_group_size capacity n * capacity.
Proof.
  intros Hn. destruct (get_group_size_bounds n) as [H | [H _]]; lia.
Qed.

Lemma get_group_size_pos (n : Z) : 1 ≤ n → 1 ≤ get_group_size capacity n.
Proof. intros Hn. pose proof (get_group_size_ceil n Hn). nia. Qed.

Lemma signer_range_end_inner (n i : Z) :
  1 ≤ n → 0 ≤ i < get_group_size capacity n - 1 →
  signer_range_end capacity i n = signer_range_start capacity (i + 1).
Proof.
  intros Hn Hi. pose proof (get_group_size_ceil n Hn).
  unfold signer_range_end, signer_range_start. nia.
Qed.

Lemma signer_range_end_last (n : Z) :
  1 ≤ n → signer_range_end capacity (get_group_size capacity n - 1) n = n.
Proof.
  intros Hn. pose proof (get_group_size_ceil n Hn).
  unfold signer_range_end. nia.
Qed.

Lemma signer_range_nonempty (n i : Z) :
  1 ≤ n → 0 ≤ i < get_group_size capacity n →
  signer_range_start capacity i < signer_range_end capacity i n.
Proof.
  intros Hn Hi. pose proof (get_group_size_ceil n Hn).
  unfold signer_range_end, signer_range_start. nia.
Qed.

Lemma signer_range_covers (n x : Z) :
  1 ≤ n → 0 ≤ x < n →
  0 ≤ x / capacity < get_group_size capacity n
  ∧ signer_range_start capacity (x / capacity) ≤ x
      < signer_range_end capacity (x / capacity) n.
Proof.
  intros Hn Hx. pose proof (get_group_size_ceil n Hn).
  pose proof (Z.div_mod x capacity ltac:(lia)) as Hdm.
  pose proof (Z.mod_pos_bound x capacity ltac:(lia)) as Hmod.
  assert (0 ≤ x / capacity) by (apply Z.div_pos; lia).
  unfold signer_range_end, signer_range_start. nia.
Qed.

Lemma signer_range_disjoint (n x i : Z) :
  signer_range_start capacity i ≤ x < signer_range_end capacity i n →
  i = x / capacity.
Proof.
  unfold signer_range_end, signer_range_start. intros Hx.
  apply Z.div_unique with (r := x - capacity * i); lia.
Qed.

Lemma get_sig_count_in_step_range (n i : Z) :
  1 ≤ n → 0 ≤ i < get_group_size capacity n →
  get_sig_count_in_step capacity i n
  = signer_range_end capacity i n - signer_range_start capacity i.
Proof.
  intros Hn Hi. pose proof (signer_range_nonempty n i Hn Hi).
  unfold get_sig_count_in_step. lia.
Qed.

End StepPartitioner.

(** C9. For a guardian set of size [n >= 1] and a step capacity [>= 1] the
    step count is the ceiling of [n / capacity]: the least [k] with
    [n <= k * capacity].  The signer ranges of the steps [0 .. k-1] start at
    0, each one ends where the next one starts, the last one ends at [n],
    none is empty, and every signer index of [[0, n)] lies in the range of
    exactly one step.  The size of a range is what [get_sig_count_in_step]
    gives.  With five guardians and capacity two there are three steps with
    ranges [[0,2)], [[2,4)] and [[4,5)]. *)
Theorem step_partition :
  (∀ capacity n : Z, 1 ≤ capacity → 1 ≤ n →
     let k := get_group_size capacity n in
     ((k - 1) * capacity < n ≤ k * capacity)
     ∧ signer_range_start capacity 0 = 0
     ∧ (∀ i, 0 ≤ i < k - 1 →
          signer_range_end capacity i n = signer_range_start capacity (i + 1))
     ∧ signer_range_end capacity (k - 1) n = n
     ∧ (∀ i, 0 ≤ i < k →
          signer_range_start capacity i < signer_range_end capacity i n
          ∧ get_sig_count_in_step capacity i n
            = signer_range_end capacity i n - signer_range_start capacity i)
     ∧ (∀ x, 0 ≤ x < n →
          ∃ i, (0 ≤ i < k
                ∧ signer_range_start capacity i ≤ x < signer_range_end capacity i n)
               ∧ ∀ j, signer_range_start capacity j ≤ x < signer_range_end capacity j n →
                      j = i))
  ∧ get_group_size 2 5 = 3
  ∧ map (λ i, (signer_range_start 2 i, signer_range_end 2 i 5)) [0; 1; 2]
    = [(0, 2); (2, 4); (4, 5)].
Proof.
  split; [ | split; reflexivity ].
  intros capacity n Hc Hn k. subst k.
  split; [ by apply get_group_size_ceil | ].
  split; [ unfold signer_range_start; lia | ].
  split; [ intros i Hi; by apply signer_range_end_inner | ].
  split; [ by apply signer_range_end_last | ].
  split.
  - intros i Hi. split.
    + by apply signer_range_nonempty.
    + by apply get_sig_count_in_step_range.
  - intros x Hx. exists (x / capacity). split.
    + by apply signer_range_covers.
    + intros j Hj. by apply (signer_range_disjoint capacity n).
Qed.

Lemma step_partition_witness :
  (get_group_size 2 5 - 1) * 2 < 5 ≤ get_group_size 2 5 * 2.
Proof.
  destruct step_partition as [H _].
  exact (proj1 (H 2 5 ltac:(lia) ltac:(lia))).
Defined.

(** ** Reasoning about the opcodes *)

Lemma Extract_Some (b : list byte) (start len : Z) :
  0 ≤ start → 0 ≤ len → start + len ≤ Len b →
  Extract b start len = Some (take (Z.to_nat len) (drop (Z.to_nat start) b)).
Proof.
  intros H1 H2 H3. unfold Extract.
  destruct (Z.leb_spec 0 start); [ | lia ].
  destruct (Z.leb_spec 0 len); [ | lia ].
  destruct (Z.leb_spec (start + len) (Len b)); [ done | lia ].
Qed.

Lemma Extract_None (b : list byte) (start len : Z) :
  Len b < start + len → Extract b start len = None.
Proof.
  intros H. unfold Extract.
  destruct (Z.leb_spec (start + len) (Len b)); [ lia | ].
  by rewrite andb_false_r.
Qed.

Lemma Extract_length (b x : list byte) (start len : Z) :
  Extract b start len = Some x → length x = Z.to_nat len.
Proof.
  unfold Extract, Len. intros H.
  destruct (Z.leb_spec 0 start); [ | done ].
  destruct (Z.leb_spec 0 len); [ | done ].
  destruct (Z.leb_spec (start + len) (Z.of_nat (length b))); [ | done ].
  simpl in H. injection H as <-.
  rewrite length_take, length_drop. lia.
Qed.

Lemma Btoi_long (b : list byte) : (8 < length b)%nat → Btoi b = None.
Proof.
  intros H. unfold Btoi. destruct (Nat.leb_spec (length b) 8); [ lia | done ].
Qed.

(** ** The payload router *)

Lemma emitter_chain_field_long (e : Env) (s : State) :
  10 ≤ Len (note (Txn e)) →
  emitter_chain_field e s = Value (take 2 (drop 8 (note (Txn e)))) s.
Proof.
  intros H. unfold emitter_chain_field, VERIFY_ARG_PAYLOAD,
    VAA_RECORD_EMITTER_CHAIN_POS, VAA_RECORD_EMITTER_CHAIN_LEN.
  unfold_monad. by rewrite Extract_Some by lia.
Qed.

Lemma emitter_chain_field_short (e : Env) (s : State) :
  Len (note (Txn e)) < 10 → emitter_chain_field e s = Failed.
Proof.
  intros H. unfold emitter_chain_field, VERIFY_ARG_PAYLOAD,
    VAA_RECORD_EMITTER_CHAIN_POS, VAA_RECORD_EMITTER_CHAIN_LEN.
  unfold_monad. by rewrite Extract_None by lia.
Qed.

Lemma emitter_address_field_long (e : Env) (s : State) :
  42 ≤ Len (note (Txn e)) →
  emitter_address_field e s = Value (take 32 (drop 10 (note (Txn e)))) s.
Proof.
  intros H. unfold emitter_address_field, VERIFY_ARG_PAYLOAD,
    VAA_RECORD_EMITTER_ADDR_POS, VAA_RECORD_EMITTER_ADDR_LEN.
  unfold_monad. by rewrite Extract_Some by lia.
Qed.

Lemma emitter_address_field_short (e : Env) (s : State) :
  Len (note (Txn e)) < 42 → emitter_address_field e s = Failed.
Proof.
  intros H. unfold emitter_address_field, VERIFY_ARG_PAYLOAD,
    VAA_RECORD_EMITTER_ADDR_POS, VAA_RECORD_EMITTER_ADDR_LEN.
  unfold_monad. by rewrite Extract_None by lia.
Qed.

Lemma chainId_long (e : Env) (s : State) :
  10 ≤ Len (note (Txn e)) →
  chainId e s = Value (be_decode (take 2 (drop 8 (note (Txn e))))) s.
Proof.
  intros H. unfold chainId, mbind, M_bind, bind.
  rewrite emitter_chain_field_long by done.
  unfold lift, Btoi. rewrite length_take, length_drop.
  unfold Len in H.
  destruct (Nat.leb_spec (2 `min` (length (note (Txn e)) - 8)) 8); [ done | lia ].
Qed.

Lemma chainId_short (e : Env) (s : State) :
  Len (note (Txn e)) < 10 → chainId e s = Failed.
Proof.
  intros H. unfold chainId, mbind, M_bind, bind.
  by rewrite emitter_chain_field_short.
Qed.

Lemma chainId_cases (e : Env) (s : State) :
  chainId e s = Failed ∨ ∃ c, chainId e s = Value c s.
Proof.
  destruct (Z.lt_ge_cases (Len (note (Txn e))) 10) as [H | H].
  - left. by apply chainId_short.
  - right. eexists. by apply chainId_long.
Qed.

(** The emitter address is a 32-byte field, and [btoi] takes at most 8
    bytes: decoding it fails whenever the extraction succeeds. *)
Lemma contractId_fails (e : Env) (s : State) : contractId e s = Failed.
Proof.
  unfold contractId, mbind, M_bind, bind.
  destruct (Z.lt_ge_cases (Len (note (Txn e))) 42) as [H | H].
  - by rewrite emitter_address_field_short.
  - rewrite emitter_address_field_long by done.
    unfold lift. rewrite Btoi_long; [ done | ].
    rewrite length_take, length_drop. unfold Len in H. lia.
Qed.

Lemma commit_vaa_body_fails (chain contract : M Z) (s : State) :
  (chain s = Failed ∨ ∃ c, chain s = Value c s) →
  contract s = Failed →
  Subroutine (commit_vaa_body chain contract) s = Failed.
Proof.
  intros [Hc | [c Hc]] Ha; unfold Subroutine, commit_vaa_body; unfold_monad.
  - by rewrite Hc.
  - by rewrite Hc, Ha.
Qed.

Lemma commit_vaa_fails (e : Env) (s : State) : commit_vaa e s = Failed.
Proof.
  apply commit_vaa_body_fails; [ apply chainId_cases | apply contractId_fails ].
Qed.

(** C10. [commit_vaa] reads the payload at the fixed ranges [[8, 10)] and
    [[10, 42)].  The emitter chain is extracted, and decoded, exactly when
    the payload has at least 10 bytes; it is then the value of bytes 8 and
    9.  The emitter address is extracted exactly when the payload has at
    least 42 bytes; it is then bytes 10 to 41.  For a payload shorter than
    42 bytes the extraction of the address is out of range and
    [commit_vaa] fails: it returns no value, so no handler decides the
    outcome. *)
Theorem commit_vaa_payload_length (e : Env) (s : State) :
  (Len (note (Txn e)) < 10 →
     emitter_chain_field e s = Failed ∧ chainId e s = Failed)
  ∧ (10 ≤ Len (note (Txn e)) →
     emitter_chain_field e s = Value (take 2 (drop 8 (note (Txn e)))) s
     ∧ chainId e s = Value (be_decode (take 2 (drop 8 (note (Txn e))))) s)
  ∧ (Len (note (Txn e)) < 42 →
     emitter_address_field e s = Failed
     ∧ contractId e s = Failed
     ∧ commit_vaa e s = Failed)
  ∧ (42 ≤ Len (note (Txn e)) →
     emitter_address_field e s = Value (take 32 (drop 10 (note (Txn e)))) s).
Proof.
  split; [ | split; [ | split ] ]; intros H.
  - split; [ by apply emitter_chain_field_short | by apply chainId_short ].
  - split; [ by apply emitter_chain_field_long | by apply chainId_long ].
  - assert (emitter_address_field e s = Failed) as Hf
      by by apply emitter_address_field_short.
    split; [ done | ].
    assert (contractId e s = Failed) as Hc.
    { unfold contractId, mbind, M_bind, bind. by rewrite Hf. }
    split; [ done | ].
    apply commit_vaa_body_fails; [ apply chainId_cases | done ].
  - by apply emitter_address_field_long.
Qed.

(** A payload of 41 bytes: the emitter chain is read (it is 3), the
    extraction of the emitter address is out of range. *)
Lemma commit_vaa_payload_length_witness :
  chainId (Fixture.first_step (take 41 (Fixture.payload 3 4))) Fixture.fresh
  = Value 3 Fixture.fresh
  ∧ emitter_address_field (Fixture.first_step (take 41 (Fixture.payload 3 4)))
      Fixture.fresh = Failed
  ∧ commit_vaa (Fixture.first_step (take 41 (Fixture.payload 3 4)))
      Fixture.fresh = Failed.
Proof.
  pose proof (commit_vaa_payload_length
                (Fixture.first_step (take 41 (Fixture.payload 3 4)))
                Fixture.fresh) as (_ & Hchain & Haddress & _).
  split.
  - apply Hchain. vm_compute. discriminate.
  - split.
    + apply Haddress. vm_compute. reflexivity.
    + apply Haddress. vm_compute. reflexivity.
Defined.

(** C4. The emitter pair of the price ticker is (chain 5, address 6).  The
    second branch of the router compares the address with
    [GOVERNANCE_CONTRACT_ID_TEST]: on the decoded pair (5, 6) the router
    returns 0.  A payload whose header holds this pair (chain in bytes 8-9,
    address in bytes 10-41) is not accepted by [commit_vaa]. *)
Theorem commit_vaa_price_ticker_origin (s : State) :
  Subroutine (commit_vaa_body (ret PYTH2WORMHOLE_CHAIN_ID_TEST)
                              (ret PYTH2WORMHOLE_CONTRACT_ID_TEST)) s
    = Value 0 s
  ∧ be_decode (take 2 (drop 8 (Fixture.payload 5 6))) = PYTH2WORMHOLE_CHAIN_ID_TEST
  ∧ be_decode (take 32 (drop 10 (Fixture.payload 5 6)))
    = PYTH2WORMHOLE_CONTRACT_ID_TEST
  ∧ commit_vaa (Fixture.last_step Fixture.keys23 (Fixture.payload 5 6)) s = Failed.
Proof.
  split; [ reflexivity | ].
  split; [ vm_compute; reflexivity | ].
  split; [ vm_compute; reflexivity | ].
  apply commit_vaa_fails.
Qed.

(** ** Loops that make no progress *)

(** A loop whose condition holds in a state that neither its body nor its
    step changes never leaves that state: it exhausts any budget. *)
Lemma For_loop_stuck (cond : M Z) (step body : M unit) (s : State) (c : Z) :
  cond s = Value c s → c ≠ 0 →
  body s = Value tt s →
  step s = Value tt s →
  ∀ fuel, For_loop fuel cond step body s = OutOfBudget.
Proof.
  intros Hcond Hc Hbody Hstep fuel.
  induction fuel as [ | fuel IH]; [ done | ].
  simpl. unfold_monad. rewrite Hcond.
  destruct (Z.eqb_spec c 0); [ done | ].
  by rewrite Hbody, Hstep.
Qed.

(** If moreover the body may fail in that state, the loop fails or exhausts
    the budget; it never completes. *)
Lemma For_loop_never_completes (cond : M Z) (step body : M unit) (s : State) (c : Z) :
  cond s = Value c s → c ≠ 0 →
  body s = Failed ∨ body s = Value tt s →
  step s = Value tt s →
  ∀ fuel, For_loop fuel cond step body s = Failed
          ∨ For_loop fuel cond step body s = OutOfBudget.
Proof.
  intros Hcond Hc [Hbody | Hbody] Hstep fuel.
  - destruct fuel as [ | fuel]; [ by right | left ].
    simpl. unfold_monad. rewrite Hcond.
    destruct (Z.eqb_spec c 0); [ done | ].
    by rewrite Hbody.
  - right. by eapply For_loop_stuck.
Qed.

(** A subroutine that starts with a loop ends the way the loop does when
    the loop fails or exhausts the budget. *)
Lemma Subroutine_For_stops (fuel : nat) (init : M unit) (cond : M Z)
    (step body rest : M unit) (s s1 : State) (r : result Z) :
  init s = Value tt s1 →
  (r = Failed ∧ For_loop fuel cond step body s1 = Failed)
  ∨ (r = OutOfBudget ∧ For_loop fuel cond step body s1 = OutOfBudget) →
  Subroutine (For fuel init cond step body;; rest) s = r.
Proof.
  intros Hinit H. unfold Subroutine, For. unfold_monad. rewrite Hinit.
  by destruct H as [[-> ->] | [-> ->]].
Qed.

(** ** The finalization audit *)

Lemma audit_counter (s : State) : SLOT_TEMP_load (audit_state s) = Value 0 (audit_state s).
Proof.
  unfold SLOT_TEMP_load, load, as_uint. unfold_monad.
  simpl. by rewrite lookup_insert_eq.
Qed.

(** The step of the audit loop stores [i + 0]: the counter stays 0. *)
Lemma audit_step (s : State) :
  (i ← SLOT_TEMP_load; i' ← lift (Add i 0); store SLOTID_TEMP_0 (Uint i'))
    (audit_state s)
  = Value tt (audit_state s).
Proof.
  unfold mbind, M_bind, bind. rewrite audit_counter.
  unfold lift, store, audit_state. simpl.
  by rewrite insert_insert_eq.
Qed.

Lemma group_size_pos (e : Env) : 1 ≤ group_size e.
Proof. unfold group_size, group. rewrite length_app. simpl. lia. Qed.

Lemma audit_cond (e : Env) (s : State) :
  (i ← SLOT_TEMP_load; ret (Lt i (group_size e))) (audit_state s)
  = Value 1 (audit_state s).
Proof.
  unfold mbind, M_bind, bind. rewrite audit_counter.
  unfold ret, Lt. pose proof (group_size_pos e).
  destruct (Z.ltb_spec 0 (group_size e)); [ done | lia ].
Qed.

Lemma audit_body (e : Env) (s : State) :
  let body :=
    (i ← SLOT_TEMP_load;
     t ← Gtxn e i;
     t' ← Gtxn e i;
     v ← ImportScratchValue e i SLOTID_VERIFIED_BIT;
     bit ← lift (GetBit v i);
     Assert (And [Z.b2z (bool_decide (type_enum t = ApplicationCall));
                  Z.b2z (application_id t' =? application_id (Txn e));
                  Z.b2z (bit =? 1)])) in
  body (audit_state s) = Failed ∨ body (audit_state s) = Value tt (audit_state s).
Proof.
  intros body. subst body. unfold mbind, M_bind, bind.
  rewrite audit_counter.
  unfold ImportScratchValue, Gtxn, mbind, M_bind, bind, lift.
  destruct (if 0 <=? 0 then group e !! Z.to_nat 0 else None) as [t | ];
    [ | by left ].
  destruct (bool_decide (type_enum t = ApplicationCall) && (0 <? group_index e));
    [ | by left ].
  unfold ret.
  destruct (GetBit _ 0) as [bit | ]; [ | by left ].
  unfold Assert. destruct (And _ =? 0); [ by left | by right ].
Qed.

Lemma check_final_verification_state_stops (fuel : nat) (e : Env) (s : State) :
  check_final_verification_state fuel e s = Failed
  ∨ check_final_verification_state fuel e s = OutOfBudget.
Proof.
  unfold check_final_verification_state.
  match goal with
  | |- context [For fuel _ ?c ?st ?b] =>
      destruct (For_loop_never_completes c st b (audit_state s) 1
                  (audit_cond e s) ltac:(lia) (audit_body e s) (audit_step s) fuel)
        as [H | H]
  end.
  - left. eapply Subroutine_For_stops; [ reflexivity | by left ].
  - right. eapply Subroutine_For_stops; [ reflexivity | by right ].
Qed.

(** C3. The step of the audit loop stores [i + 0]: it leaves the state in
    which the counter is 0 as it is, and in that state the loop condition
    [i < group_size] holds, whatever the group (its size is at least 1).
    So [check_final_verification_state] never returns a value, for any
    group, state and budget: the call fails on an assertion about
    transaction 0 or exhausts the budget. *)
Theorem check_final_verification_state_never_returns
    (fuel : nat) (e : Env) (s : State) :
  (i ← SLOT_TEMP_load; i' ← lift (Add i 0); store SLOTID_TEMP_0 (Uint i'))
    (audit_state s) = Value tt (audit_state s)
  ∧ (i ← SLOT_TEMP_load; ret (Lt i (group_size e))) (audit_state s)
    = Value 1 (audit_state s)
  ∧ (check_final_verification_state fuel e s = Failed
     ∨ check_final_verification_state fuel e s = OutOfBudget)
  ∧ ∀ v s', check_final_verification_state fuel e s ≠ Value v s'.
Proof.
  split; [ apply audit_step | ].
  split; [ apply audit_cond | ].
  split; [ apply check_final_verification_state_stops | ].
  intros v s'.
  by destruct (check_final_verification_state_stops fuel e s) as [-> | ->].
Qed.

Lemma audit_body_marked (e : Env) (s : State) (t : Transaction) :
  group e !! 0%nat = Some t →
  type_enum t = ApplicationCall →
  application_id t = application_id (Txn e) →
  scratch_space t !! SLOTID_VERIFIED_BIT = Some (Uint 1) →
  0 < group_index e →
  (i ← SLOT_TEMP_load;
   t ← Gtxn e i;
   t' ← Gtxn e i;
   v ← ImportScratchValue e i SLOTID_VERIFIED_BIT;
   bit ← lift (GetBit v i);
   Assert (And [Z.b2z (bool_decide (type_enum t = ApplicationCall));
                Z.b2z (application_id t' =? application_id (Txn e));
                Z.b2z (bit =? 1)])) (audit_state s)
  = Value tt (audit_state s).
Proof.
  intros Ht Hty Hid Hbits Hidx. unfold mbind, M_bind, bind.
  rewrite audit_counter.
  unfold ImportScratchValue, Gtxn, mbind, M_bind, bind, lift. simpl.
  change (Z.to_nat 0) with 0%nat. rewrite Ht. simpl.
  rewrite Hty, Hbits, Hid, Z.eqb_refl.
  destruct (Z.ltb_spec 0 (group_index e)); [ | lia ].
  rewrite bool_decide_eq_true_2 by done. done.
Qed.

(** ** The administrative call *)

Lemma setvphash_eval (e : Env) (s : State) :
  setvphash e s =
  match application_args (Txn e) !! 1%nat with
  | Some h =>
      if bool_decide (sender (Txn e) = creator_address e)
         && (group_size e =? 1)
         && (application_args_length e =? 2)
         && (Len h =? 32)
      then Returned 1 (set_vphash h s)
      else Failed
  | None => Failed
  end.
Proof.
  unfold setvphash, is_creator, application_arg, Eq, Assert, And, globalPut.
  unfold_monad.
  destruct (application_args (Txn e) !! 1%nat) as [h | ]; [ | done ].
  simpl.
  destruct (bool_decide (sender (Txn e) = creator_address e));
    destruct (group_size e =? 1);
    destruct (application_args_length e =? 2);
    destruct (Z.eqb_spec (Len h) 32) as [Hlen | Hlen]; try done.
  simpl. by rewrite Hlen.
Qed.

(** C7. [setvphash] is approved exactly when the sender is the creator, the
    call is alone in its group, and there are exactly two application
    arguments of which the second is 32 bytes long.  It then overwrites
    [vphash] with that argument and changes nothing else.  In every other
    case it fails, and the state after the call is the state before it: the
    stored hash is unchanged. *)
Theorem setvphash_exactly_when_allowed (e : Env) (s : State) :
  (approved (setvphash e s) ↔ ∃ h, setvphash_allowed e h)
  ∧ (∀ h, setvphash_allowed e h →
       setvphash e s = Returned 1 (set_vphash h s)
       ∧ STATELESS_LOGIC_HASH (state_after s (setvphash e s))
         = Value (Bytes h) (set_vphash h s)
       ∧ scratch (set_vphash h s) = scratch s
       ∧ ∀ key, key ≠ bytes_of_string "vphash" →
                globals (set_vphash h s) !! key = globals s !! key)
  ∧ ((¬ ∃ h, setvphash_allowed e h) →
       setvphash e s = Failed
       ∧ state_after s (setvphash e s) = s).
Proof.
  assert (∀ h, setvphash_allowed e h →
               setvphash e s = Returned 1 (set_vphash h s)) as Hok.
  { intros h (Hs & Hg & Hn & Ha & Hl).
    rewrite setvphash_eval, Ha.
    rewrite bool_decide_eq_true_2 by done.
    unfold application_args_length, Len. rewrite Hg, Hn, Hl. done. }
  assert (setvphash e s = Failed ∨ ∃ h, setvphash_allowed e h) as Hcases.
  { rewrite setvphash_eval.
    destruct (application_args (Txn e) !! 1%nat) as [h | ] eqn:Ha; [ | by left ].
    destruct (_ && _) eqn:Hc; [ | by left ].
    right. exists h.
    apply andb_prop in Hc as [Hc H4]. apply andb_prop in Hc as [Hc H3].
    apply andb_prop in Hc as [H1 H2].
    apply bool_decide_eq_true_1 in H1.
    unfold application_args_length, Len in *.
    repeat split; [ done | lia | lia | done | lia ]. }
  assert ((¬ ∃ h, setvphash_allowed e h) → setvphash e s = Failed) as Hko.
  { intros Hno. by destruct Hcases. }
  split; [ | split ].
  - split.
    + intros (v & s' & Hr & Hv).
      destruct Hcases as [Hf | Hyes]; [ | done ].
      rewrite Hf in Hr. discriminate.
    + intros [h Hh]. exists 1, (set_vphash h s). split; [ by apply Hok | lia ].
  - intros h Hh. rewrite (Hok h Hh). split; [ done | ].
    split; [ | split; [ done | ] ].
    + unfold STATELESS_LOGIC_HASH, globalGet, state_after. simpl.
      by rewrite lookup_insert_eq.
    + intros key Hkey. simpl. by rewrite lookup_insert_ne.
  - intros Hno. rewrite (Hko Hno). done.
Qed.

Lemma setvphash_exactly_when_allowed_witness :
  setvphash
    (Fixture.setvphash_call Fixture.owner
       [bytes_of_string "setvphash"; Fixture.new_hash])
    Fixture.fresh
  = Returned 1 (set_vphash Fixture.new_hash Fixture.fresh).
Proof.
  apply (setvphash_exactly_when_allowed
           (Fixture.setvphash_call Fixture.owner
              [bytes_of_string "setvphash"; Fixture.new_hash])
           Fixture.fresh).
  vm_compute. repeat split.
Defined.

(** ** What the guardian checks leave unchanged *)

Lemma frame_refl (s : State) : frame s s.
Proof. by split. Qed.

Lemma frame_trans (s1 s2 s3 : State) : frame s1 s2 → frame s2 s3 → frame s1 s3.
Proof.
  intros [Hg1 Hs1] [Hg2 Hs2]. split; [ congruence | ].
  intros k Hk. rewrite Hs2, Hs1; done.
Qed.

Lemma framed_ret {A} (a : A) : framed (mret a).
Proof. intros s. apply frame_refl. Qed.

Lemma framed_bind {A B} (m : M A) (k : A → M B) :
  framed m → (∀ a, framed (k a)) → framed (m ≫= k).
Proof.
  intros Hm Hk s. unfold mbind, M_bind, bind.
  specialize (Hm s). destruct (m s) as [a s1 | v s1 | | ]; try done.
  specialize (Hk a s1). destruct (k a s1); try done; by eapply frame_trans.
Qed.

Lemma framed_lift {A} (o : option A) : framed (lift o).
Proof. intros s. unfold lift. destruct o; [ apply frame_refl | done ]. Qed.

Lemma framed_Return {A} (v : Z) : framed (@Return A v).
Proof. intros s. apply frame_refl. Qed.

Lemma framed_Assert (c : Z) : framed (Assert c).
Proof. intros s. unfold Assert. destruct (c =? 0); [ done | apply frame_refl ]. Qed.

Lemma framed_IfThen (c : Z) (body : M unit) : framed body → framed (IfThen c body).
Proof. intros H. unfold IfThen. destruct (c =? 0); [ apply framed_ret | done ]. Qed.

Lemma framed_as_uint (v : TealValue) : framed (as_uint v).
Proof. destruct v; [ apply framed_ret | apply framed_lift ]. Qed.

Lemma framed_load (slot : Z) : framed (load slot).
Proof. intros s. apply frame_refl. Qed.

Lemma framed_globalGet (key : list byte) : framed (globalGet key).
Proof. intros s. apply frame_refl. Qed.

Lemma framed_store_temp (v : TealValue) : framed (store SLOTID_TEMP_0 v).
Proof.
  intros s. split; [ done | ]. intros k Hk. simpl. by rewrite lookup_insert_ne.
Qed.

Lemma framed_Subroutine (body : M unit) : framed body → framed (Subroutine body).
Proof.
  intros H s. unfold Subroutine. specialize (H s). by destruct (body s).
Qed.

Lemma framed_For_loop (fuel : nat) (cond : M Z) (step body : M unit) :
  framed cond → framed step → framed body →
  framed (For_loop fuel cond step body).
Proof.
  intros Hc Hs Hb. induction fuel as [ | fuel IH]; [ done | ].
  simpl. apply framed_bind; [ done | ]. intros c.
  destruct (c =? 0); [ apply framed_ret | ].
  apply framed_bind; [ done | ]. intros _.
  apply framed_bind; [ done | ]. intros _. done.
Qed.

Lemma framed_For (fuel : nat) (init : M unit) (cond : M Z) (step body : M unit) :
  framed init → framed cond → framed step → framed body →
  framed (For fuel init cond step body).
Proof.
  intros Hi Hc Hs Hb. unfold For. apply framed_bind; [ done | ].
  intros _. by apply framed_For_loop.
Qed.

#[global] Hint Resolve framed_ret framed_bind framed_lift framed_Return
  framed_Assert framed_IfThen framed_as_uint framed_load framed_globalGet
  framed_store_temp framed_Subroutine framed_For : framed.

Lemma framed_check_guardian_key_subset (capacity : Z) (fuel : nat) (e : Env) :
  framed (check_guardian_key_subset capacity fuel e).
Proof.
  unfold check_guardian_key_subset, SLOT_TEMP_load, NUM_GUARDIANS,
    VERIFY_ARG_GUARDIAN_KEY_SUBSET, application_arg.
  auto 20 with framed.
Qed.

(** ** The verification step *)

Lemma And_nonzero (cs : list Z) : And cs ≠ 0 → Forall (λ c, c ≠ 0) cs.
Proof.
  unfold And. destruct (forallb _ cs) eqn:H; [ intros _ | done ].
  rewrite forallb_forall in H. apply Forall_forall. intros c Hc.
  apply list_elem_of_In in Hc. specialize (H c Hc).
  destruct (Z.eqb_spec c 0); done.
Qed.

Lemma Eq_uint_nonzero (v : TealValue) (n c : Z) :
  Eq v (Uint n) = Some c → c ≠ 0 → v = Uint n.
Proof.
  destruct v as [m | b]; simpl; [ | done ].
  intros [= <-]. destruct (Z.eqb_spec m n); [ by subst | done ].
Qed.

Lemma check_guardian_set_size_inv (e : Env) (s s' : State) (c : Z) :
  check_guardian_set_size e s = Value c s' →
  s' = s
  ∧ (c ≠ 0 → ∃ claimed,
       application_args (Txn e) !! 2%nat = Some claimed
       ∧ NUM_GUARDIANS s = Value (Uint (be_decode claimed)) s
       ∧ Btoi claimed = Some (be_decode claimed)).
Proof.
  unfold check_guardian_set_size, NUM_GUARDIANS, VERIFY_ARG_GUARDIAN_SET_SIZE,
    application_arg, globalGet.
  unfold_monad.
  destruct (application_args (Txn e) !! 2%nat) as [a | ]; [ | done ].
  destruct (Btoi a) as [claimed | ] eqn:Hb; [ | done ].
  destruct (Eq _ (Uint claimed)) as [c' | ] eqn:He; [ | done ].
  intros [= -> ->]. split; [ done | ].
  intros Hc. exists a.
  assert (claimed = be_decode a) as ->.
  { unfold Btoi in Hb. destruct (_ <=? _)%nat; congruence. }
  split; [ done | ]. split; [ | done ].
  by rewrite (Eq_uint_nonzero _ _ _ He Hc).
Qed.

Lemma check_guardian_set_size_not_Returned (e : Env) (s s' : State) (v : Z) :
  check_guardian_set_size e s ≠ Returned v s'.
Proof.
  unfold check_guardian_set_size, NUM_GUARDIANS, VERIFY_ARG_GUARDIAN_SET_SIZE,
    application_arg, globalGet.
  unfold_monad.
  destruct (application_args (Txn e) !! 2%nat) as [a | ]; [ | done ].
  destruct (Btoi a) as [claimed | ]; [ | done ].
  by destruct (Eq _ (Uint claimed)).
Qed.

Lemma Subroutine_not_Returned (body : M unit) (s s' : State) (v : Z) :
  Subroutine body s ≠ Returned v s'.
Proof. unfold Subroutine. by destruct (body s). Qed.

Lemma verify_inv (capacity : Z) (fuel : nat) (e : Env) (s s' : State) (v : Z) :
  verify capacity fuel e s = Returned v s' →
  ∃ n c5 s3,
    NUM_GUARDIANS s = Value (Uint n) s
    ∧ STATELESS_LOGIC_HASH s = Value (Bytes (sender (Txn e))) s
    ∧ (∃ claimed, application_args (Txn e) !! 2%nat = Some claimed
                  ∧ Btoi claimed = Some n)
    ∧ group_size e = get_group_size capacity n
    ∧ application_args_length e = 3
    ∧ check_guardian_key_subset capacity fuel e (verify_state s) = Value c5 s3
    ∧ c5 ≠ 0
    ∧ 0 ≤ group_index e < 64
    ∧ group_index e ≠ group_size e - 1
    ∧ v = 1
    ∧ s' = mkState (<[SLOTID_VERIFIED_BIT := Uint (Z.setbit 0 (group_index e))]>
                      (scratch s3))
                   (globals s3).
Proof.
  unfold verify. unfold NUM_GUARDIANS, STATELESS_LOGIC_HASH, globalGet, store, load.
  unfold_monad. simpl. fold (verify_state s).
  destruct (default (Uint 0) (globals s !! bytes_of_string "gscount"))
    as [n | ?] eqn:Hn; [ | done ].
  simpl.
  destruct (default (Uint 0) (globals s !! bytes_of_string "vphash"))
    as [? | h] eqn:Hh; [ done | ].
  destruct (check_guardian_set_size e (verify_state s)) as [c4 s2 | ? ? | | ] eqn:H4;
    [ | by apply check_guardian_set_size_not_Returned in H4 | done | done ].
  apply check_guardian_set_size_inv in H4 as [-> H4].
  destruct (check_guardian_key_subset capacity fuel e (verify_state s))
    as [c5 s3 | ? ? | | ] eqn:H5;
    [ | by apply Subroutine_not_Returned in H5 | done | done ].
  unfold Assert.
  destruct (Z.eqb_spec (And [Z.b2z (group_size e =? get_group_size capacity n);
                             Z.b2z (application_args_length e =? 3);
                             Z.b2z (bool_decide (sender (Txn e) = h)); c4; c5]) 0)
    as [ | Hand ]; [ done | ].
  apply And_nonzero in Hand.
  apply Forall_cons in Hand as [H1 Hand]. apply Forall_cons in Hand as [H2 Hand].
  apply Forall_cons in Hand as [H3 Hand]. apply Forall_cons in Hand as [Hc4 Hand].
  apply Forall_cons in Hand as [Hc5 _].
  destruct (Z.eqb_spec (group_size e) (get_group_size capacity n)); [ | done ].
  destruct (Z.eqb_spec (application_args_length e) 3); [ | done ].
  case_bool_decide; [ subst h | done ].
  destruct (H4 Hc4) as (claimed & Harg & Hnum & Hbtoi).
  unfold NUM_GUARDIANS, globalGet in Hnum. simpl in Hnum. rewrite Hn in Hnum.
  injection Hnum as ->.
  pose proof (framed_check_guardian_key_subset capacity fuel e (verify_state s))
    as Hframe.
  rewrite H5 in Hframe. destruct Hframe as [_ Hscratch].
  rewrite Hscratch by done. simpl. rewrite lookup_insert_eq. simpl.
  unfold SetBit, set_or_clear. simpl.
  destruct (Z.leb_spec 0 (group_index e)); [ | done ].
  destruct (Z.ltb_spec (group_index e) 64); [ | done ].
  simpl. unfold Minus.
  destruct (Z.leb_spec 1 (group_size e)); [ | done ].
  unfold IfThen.
  destruct (Z.eqb_spec (group_index e) (group_size e - 1)) as [Hlast | Hlast].
  - simpl.
    match goal with
    | |- context [check_final_verification_state fuel e ?st] =>
        destruct (check_final_verification_state_stops fuel e st) as [-> | ->]
    end; done.
  - simpl. intros [= <- <-].
    exists (be_decode claimed), c5, s3.
    repeat split; try done; try lia.
    by exists claimed.
Qed.

(** C5. A [verify] call is approved only if the size of its group is the
    step count for the guardian count [gscount] of the registry, it
    carries exactly three application arguments, its sender is the stored
    verifier hash [vphash], and its guardian-set-size argument decodes to
    [gscount].  When one of these fails the call is not approved. *)
Theorem verify_preconditions (capacity : Z) (fuel : nat) (e : Env) (s : State) :
  approved (verify capacity fuel e s) →
  ∃ n claimed,
    NUM_GUARDIANS s = Value (Uint n) s
    ∧ group_size e = get_group_size capacity n
    ∧ application_args_length e = 3
    ∧ STATELESS_LOGIC_HASH s = Value (Bytes (sender (Txn e))) s
    ∧ VERIFY_ARG_GUARDIAN_SET_SIZE e s = Value claimed s
    ∧ Btoi claimed = Some n.
Proof.
  intros (v & s' & Hr & _).
  apply verify_inv in Hr
    as (n & c5 & s3 & Hn & Hh & (claimed & Harg & Hb) & Hg & Ha & _).
  exists n, claimed.
  repeat split; try done.
  unfold VERIFY_ARG_GUARDIAN_SET_SIZE, application_arg, lift. by rewrite Harg.
Qed.

Lemma verify_preconditions_witness :
  ∃ n claimed,
    NUM_GUARDIANS Fixture.fresh = Value (Uint n) Fixture.fresh
    ∧ group_size (Fixture.first_step (Fixture.payload 3 4)) = get_group_size 2 n
    ∧ application_args_length (Fixture.first_step (Fixture.payload 3 4)) = 3
    ∧ STATELESS_LOGIC_HASH Fixture.fresh
      = Value (Bytes (sender (Txn (Fixture.first_step (Fixture.payload 3 4)))))
              Fixture.fresh
    ∧ VERIFY_ARG_GUARDIAN_SET_SIZE (Fixture.first_step (Fixture.payload 3 4))
        Fixture.fresh = Value claimed Fixture.fresh
    ∧ Btoi claimed = Some n.
Proof.
  apply (verify_preconditions 2 10 (Fixture.first_step (Fixture.payload 3 4))
           Fixture.fresh).
  exists 1, (mkState {[ SLOTID_TEMP_0 := Uint 2; SLOTID_VERIFIED_BIT := Uint 1 ]}
                     Fixture.registry).
  split; [ vm_compute; reflexivity | lia ].
Defined.




(** ** The audit within the last step *)

(** C2. In a unit of two steps in which transaction 0 is a call of this
    application with bit 0 marked, the audit run by the last step does not
    return 1: it checks index 0 again and again until the budget is
    exhausted.  The same happens in a unit of three steps whose middle
    transaction is a payment: index 1 is never examined, and the audit ends
    in the same way as for the unit without a foreign transaction.  As the
    audit never returns, the last step of a unit is never approved. *)
Theorem check_final_verification_state_audits_index_0 (fuel : nat) (s : State) :
  check_final_verification_state fuel
    (Fixture.last_step Fixture.keys23 (Fixture.payload 3 4)) s = OutOfBudget
  ∧ check_final_verification_state fuel
      (mkEnv [Fixture.step Fixture.keys01 (Fixture.payload 3 4) 1;
              mkTransaction Fixture.owner Payment 0 [] [] ∅]
             (Fixture.step Fixture.keys23 (Fixture.payload 3 4) 0) []
             Fixture.owner)
      s = OutOfBudget
  ∧ ∀ capacity e, group_index e = group_size e - 1 →
                  ¬ approved (verify capacity fuel e s).
Proof.
  split; [ | split ].
  1, 2: unfold check_final_verification_state.
  1, 2: eapply Subroutine_For_stops; [ reflexivity | right; split; [ done | ] ].
  1, 2: eapply For_loop_stuck with (c := 1);
    [ apply audit_cond | lia
    | eapply audit_body_marked; [ reflexivity | done | done | done | done ]
    | apply audit_step ].
  intros capacity e Hlast (v & s' & Hr & _).
  apply verify_inv in Hr
    as (n & c5 & s3 & _ & _ & _ & _ & _ & _ & _ & _ & Hne & _).
  done.
Qed.

(** ** The router within the last step *)



(** ** The guardian-key check *)

Section KeySubsetLoop.

Variables (capacity : Z) (e : Env).

(** The three parts of the loop of [check_guardian_key_subset]. *)
Let cond : M Z :=
  i ← SLOT_TEMP_load;
  n ← NUM_GUARDIANS;
  n ← as_uint n;
  ret (Lt i (get_sig_count_in_step capacity (group_index e) n)).

Let step : M unit :=
  i ← SLOT_TEMP_load;
  i' ← lift (Add i 1);
  store SLOTID_TEMP_0 (Uint i').

Let body : M unit :=
  i ← SLOT_TEMP_load;
  stored ← globalGet (Itob i);
  keys ← VERIFY_ARG_GUARDIAN_KEY_SUBSET e;
  j ← SLOT_TEMP_load;
  offset ← lift (Mul j 64);
  key ← lift (Extract keys offset 64);
  c ← lift (Neq stored (Bytes key));
  IfThen c (Return 0).

Lemma key_loop_invariant (fuel : nat) :
  ∀ (s : State) (i n : Z),
    scratch s !! SLOTID_TEMP_0 = Some (Uint i) →
    NUM_GUARDIANS s = Value (Uint n) s →
    match For_loop fuel cond step body s with
    | Value _ _ =>
        ∀ k, i ≤ k < get_sig_count_in_step capacity (group_index e) n →
             key_matches e s k
    | Returned v _ => v = 0
    | Failed | OutOfBudget => True
    end.
Proof.
  induction fuel as [ | fuel IH]; intros s i n Hi Hn; [ done | ].
  simpl.
  assert (SLOT_TEMP_load s = Value i s) as Hload.
  { unfold SLOT_TEMP_load, load. unfold_monad. by rewrite Hi. }
  assert (cond s
          = Value (Lt i (get_sig_count_in_step capacity (group_index e) n)) s)
    as Hcond.
  { unfold cond, mbind, M_bind, bind. by rewrite Hload, Hn. }
  unfold mbind at 1, M_bind at 1, bind at 1. rewrite Hcond.
  unfold Lt. destruct (Z.ltb_spec i (get_sig_count_in_step capacity (group_index e) n))
    as [Hlt | Hge]; simpl; [ | intros k Hk; lia ].
  unfold mbind at 1, M_bind at 1, bind at 1.
  assert (match body s with
          | Value _ s1 => s1 = s ∧ key_matches e s i
          | Returned v _ => v = 0
          | Failed | OutOfBudget => True
          end) as Hbody.
  { unfold body, key_matches, VERIFY_ARG_GUARDIAN_KEY_SUBSET, application_arg,
      globalGet, mbind, M_bind, bind.
    rewrite Hload. unfold lift.
    destruct (application_args (Txn e) !! 1%nat) as [keys | ]; [ | done ].
    rewrite Hload. unfold Mul.
    destruct (i * 64 <=? uint64_max); [ | done ].
    destruct (Extract keys (i * 64) 64) as [key | ] eqn:Hkey; [ | done ].
    unfold Neq.
    destruct (Eq _ (Bytes key)) as [c | ] eqn:Hc; [ | done ].
    unfold IfThen. destruct (Z.eqb_spec (1 - c) 0) as [Hz | Hz]; [ | done ].
    simpl. split; [ done | ]. exists keys, key.
    split; [ done | ]. split; [ done | ].
    destruct (default (Uint 0) (globals s !! Itob i)) as [? | b]; [ done | ].
    simpl in Hc. injection Hc as <-.
    case_bool_decide; [ by subst | simpl in Hz; lia ]. }
  destruct (body s) as [[] s1 | v s1 | | ]; try done.
  destruct Hbody as [-> Hmatch].
  unfold mbind at 1, M_bind at 1, bind at 1.
  unfold step, mbind, M_bind, bind. rewrite Hload.
  unfold lift, Add. destruct (i + 1 <=? uint64_max); [ | done ].
  unfold store.
  specialize (IH (mkState (<[SLOTID_TEMP_0 := Uint (i + 1)]> (scratch s)) (globals s))
                 (i + 1) n).
  fold step body in IH |- *.
  destruct (For_loop fuel cond _ _ _) as [[] s2 | v s2 | | ]; try done.
  - intros k Hk.
    destruct (Z.eq_dec k i) as [-> | Hne]; [ done | ].
    destruct (IH (lookup_insert_eq _ _ _)) with (k := k)
      as (keys & key & Hkeys & Hkey & Hstored).
    + unfold NUM_GUARDIANS, globalGet in *. simpl. congruence.
    + lia.
    + exists keys, key.
      unfold VERIFY_ARG_GUARDIAN_KEY_SUBSET, application_arg, lift, globalGet in *.
      simpl in *.
      destruct (application_args (Txn e) !! 1%nat); [ | done ].
      split; [ congruence | ]. split; [ done | congruence ].
  - apply IH; [ apply lookup_insert_eq | ].
    unfold NUM_GUARDIANS, globalGet in *. simpl. congruence.
Qed.

(** [check_guardian_key_subset] returns a non-zero value only if, for
    every position [k] below the signature count of the step, the k-th
    provided key is the registry entry of index [k]. *)
Lemma check_guardian_key_subset_accepts (fuel : nat) (s s' : State) (n c : Z) :
  NUM_GUARDIANS s = Value (Uint n) s →
  check_guardian_key_subset capacity fuel e s = Value c s' →
  c ≠ 0 →
  ∀ k, 0 ≤ k < get_sig_count_in_step capacity (group_index e) n →
       key_matches e s k.
Proof.
  intros Hn Hr Hc k Hk.
  unfold check_guardian_key_subset, Subroutine, For in Hr.
  fold cond step body in Hr.
  unfold mbind at 1 2, M_bind at 1 2, bind at 1 2 in Hr.
  unfold store at 1 in Hr.
  pose proof (key_loop_invariant fuel
                (mkState (<[SLOTID_TEMP_0 := Uint 0]> (scratch s)) (globals s))
                0 n (lookup_insert_eq _ _ _)) as Hinv.
  destruct (For_loop fuel cond step body _) as [[] s2 | v s2 | | ]; try done.
  - destruct Hinv with (k := k) as (keys & key & Hkeys & Hkey & Hstored).
    + unfold NUM_GUARDIANS, globalGet in *. simpl. congruence.
    + lia.
    + exists keys, key.
      unfold VERIFY_ARG_GUARDIAN_KEY_SUBSET, application_arg, lift, globalGet in *.
      simpl in *.
      destruct (application_args (Txn e) !! 1%nat); [ | done ].
      split; [ congruence | ]. split; [ done | congruence ].
  - injection Hr as <- <-. exfalso. apply Hc, Hinv.
    unfold NUM_GUARDIANS, globalGet in *. simpl. congruence.
Qed.

Lemma key_matches_globals (s s1 : State) (k : Z) :
  globals s1 = globals s → key_matches e s k → key_matches e s1 k.
Proof.
  intros Hg (keys & key & Hkeys & Hkey & Hstored). exists keys, key.
  unfold VERIFY_ARG_GUARDIAN_KEY_SUBSET, application_arg, lift, globalGet in *.
  destruct (application_args (Txn e) !! 1%nat); [ | done ].
  split; [ congruence | ]. split; [ done | ].
  rewrite Hg. congruence.
Qed.

(** With a budget above the number of iterations left, the loop completes
    when every remaining key matches. *)
Lemma key_loop_completes (m : nat) :
  ∀ (fuel : nat) (s : State) (i n : Z),
    scratch s !! SLOTID_TEMP_0 = Some (Uint i) →
    NUM_GUARDIANS s = Value (Uint n) s →
    get_sig_count_in_step capacity (group_index e) n - i ≤ Z.of_nat m →
    (m < fuel)%nat →
    get_sig_count_in_step capacity (group_index e) n * 64 ≤ uint64_max →
    0 ≤ i →
    (∀ k, i ≤ k < get_sig_count_in_step capacity (group_index e) n →
          key_matches e s k) →
    ∃ s', For_loop fuel cond step body s = Value tt s'.
Proof.
  induction m as [ | m IH]; intros fuel s i n Hi Hn Hm Hfuel Hmax Hi0 Hkeys.
  all: destruct fuel as [ | fuel]; [ lia | ].
  all: simpl.
  all: assert (SLOT_TEMP_load s = Value i s) as Hload
         by (unfold SLOT_TEMP_load, load; unfold_monad; by rewrite Hi).
  all: assert (cond s
               = Value (Lt i (get_sig_count_in_step capacity (group_index e) n)) s)
         as Hcond
         by (unfold cond, mbind, M_bind, bind; by rewrite Hload, Hn).
  all: unfold mbind at 1, M_bind at 1, bind at 1; rewrite Hcond.
  all: unfold Lt;
    destruct (Z.ltb_spec i (get_sig_count_in_step capacity (group_index e) n))
      as [Hlt | Hge]; simpl; [ | by exists s ].
  - lia.
  - assert (body s = Value tt s) as Hbody.
    { destruct (Hkeys i ltac:(lia)) as (keys & key & Harg & Hkey & Hstored).
      unfold body, mbind, M_bind, bind. rewrite Hload, Hstored, Harg, Hload.
      unfold lift, Mul.
      destruct (Z.leb_spec (i * 64) uint64_max); [ | lia ].
      rewrite Hkey. unfold Neq. simpl.
      by rewrite bool_decide_eq_true_2. }
    unfold mbind at 1, M_bind at 1, bind at 1. rewrite Hbody.
    unfold mbind at 1, M_bind at 1, bind at 1.
    unfold step, mbind, M_bind, bind. rewrite Hload.
    unfold lift, Add. destruct (Z.leb_spec (i + 1) uint64_max); [ | lia ].
    unfold store. fold step body.
    apply (IH fuel _ (i + 1) n).
    + apply lookup_insert_eq.
    + unfold NUM_GUARDIANS, globalGet in *. simpl. congruence.
    + lia.
    + lia.
    + done.
    + lia.
    + intros k Hk. apply key_matches_globals with (s := s); [ done | ].
      apply Hkeys. lia.
Qed.

(** With enough budget, [check_guardian_key_subset] returns 1 when every
    carried key matches the registry key of the same position. *)
Lemma check_guardian_key_subset_returns_1 (fuel : nat) (s : State) (n : Z) :
  NUM_GUARDIANS s = Value (Uint n) s →
  (Z.to_nat (get_sig_count_in_step capacity (group_index e) n) < fuel)%nat →
  get_sig_count_in_step capacity (group_index e) n * 64 ≤ uint64_max →
  (∀ k, 0 ≤ k < get_sig_count_in_step capacity (group_index e) n →
        key_matches e s k) →
  ∃ s', check_guardian_key_subset capacity fuel e s = Value 1 s'.
Proof.
  intros Hn Hfuel Hmax Hkeys.
  destruct (key_loop_completes
              (Z.to_nat (get_sig_count_in_step capacity (group_index e) n)) fuel
              (mkState (<[SLOTID_TEMP_0 := Uint 0]> (scratch s)) (globals s)) 0 n)
    as [s' Hloop].
  - apply lookup_insert_eq.
  - unfold NUM_GUARDIANS, globalGet in *. simpl. congruence.
  - lia.
  - done.
  - done.
  - lia.
  - intros k Hk. apply key_matches_globals with (s := s); [ done | by apply Hkeys ].
  - exists s'. unfold check_guardian_key_subset, Subroutine, For.
    fold cond step body.
    unfold mbind at 1 2, M_bind at 1 2, bind at 1 2. unfold store at 1.
    by rewrite Hloop.
Qed.

End KeySubsetLoop.

(** A step that is not the last one is approved when the preconditions of
    [verify] hold, every carried key matches, and the budget covers the
    guardian-key loop. *)
Lemma verify_step_approved (capacity : Z) (fuel : nat) (e : Env) (s : State)
    (n : Z) (claimed : list byte) :
  NUM_GUARDIANS s = Value (Uint n) s →
  group_size e = get_group_size capacity n →
  application_args_length e = 3 →
  STATELESS_LOGIC_HASH s = Value (Bytes (sender (Txn e))) s →
  VERIFY_ARG_GUARDIAN_SET_SIZE e s = Value claimed s →
  Btoi claimed = Some n →
  (∀ k, 0 ≤ k < get_sig_count_in_step capacity (group_index e) n →
        key_matches e s k) →
  get_sig_count_in_step capacity (group_index e) n * 64 ≤ uint64_max →
  (Z.to_nat (get_sig_count_in_step capacity (group_index e) n) < fuel)%nat →
  group_index e < 64 →
  group_index e ≠ group_size e - 1 →
  ∃ s', verify capacity fuel e s = Returned 1 s'.
Proof.
  intros Hn Hg Ha Hh Hc Hb Hkeys Hmax Hfuel Hidx Hlast.
  destruct (check_guardian_key_subset_returns_1 capacity e fuel (verify_state s) n)
    as [s3 H5]; try done.
  { unfold NUM_GUARDIANS, globalGet in *. simpl. congruence. }
  { intros k Hk. apply key_matches_globals with (s := s); [ done | by apply Hkeys ]. }
  pose proof (framed_check_guardian_key_subset capacity fuel e (verify_state s))
    as Hframe.
  rewrite H5 in Hframe. destruct Hframe as [_ Hscratch].
  assert (check_guardian_set_size e (verify_state s) = Value 1 (verify_state s))
    as H4.
  { unfold check_guardian_set_size, NUM_GUARDIANS, VERIFY_ARG_GUARDIAN_SET_SIZE,
      application_arg, globalGet in *.
    unfold_monad. simpl.
    destruct (application_args (Txn e) !! 2%nat) as [a | ]; [ | done ].
    injection Hc as ->. injection Hn as Hn. rewrite Hb, Hn. simpl.
    by rewrite Z.eqb_refl. }
  eexists. unfold verify.
  unfold NUM_GUARDIANS, STATELESS_LOGIC_HASH, globalGet, store, load in *.
  unfold_monad. simpl. fold (verify_state s).
  injection Hn as Hn. injection Hh as Hh. rewrite Hn. simpl. rewrite Hh. simpl.
  rewrite H4, H5.
  rewrite (proj2 (Z.eqb_eq _ _) Hg), (proj2 (Z.eqb_eq _ _) Ha).
  rewrite bool_decide_eq_true_2 by done.
  simpl.
  rewrite Hscratch by done. simpl. rewrite lookup_insert_eq. simpl.
  unfold SetBit, set_or_clear. simpl.
  pose proof (group_size_pos e).
  destruct (Z.leb_spec 0 (group_index e)); [ | unfold group_index in *; lia ].
  destruct (Z.ltb_spec (group_index e) 64); [ | lia ].
  simpl. unfold Minus.
  destruct (Z.leb_spec 1 (group_size e)); [ | lia ].
  unfold IfThen.
  destruct (Z.eqb_spec (group_index e) (group_size e - 1)); [ lia | ].
  simpl. reflexivity.
Qed.

(** C1. [check_guardian_key_subset] returns a non-zero value only if, for
    every position [k] below the signature count of the step, the k-th key
    it carries is the registry key of index [k]: the index is not offset by
    the start of the step's signer range.  With four guardians and a step
    capacity of two, step 1 covers the signer range [[2, 4)]: when it
    carries the registry keys 2 and 3 the check returns 0, and when it
    carries the registry keys 0 and 1 the check returns 1. *)
Theorem check_guardian_key_subset_registry_index :
  (∀ capacity fuel e s s' n c,
     NUM_GUARDIANS s = Value (Uint n) s →
     check_guardian_key_subset capacity fuel e s = Value c s' →
     c ≠ 0 →
     ∀ k, 0 ≤ k < get_sig_count_in_step capacity (group_index e) n →
          key_matches e s k)
  ∧ signer_range_start 2 1 = 2
  ∧ signer_range_end 2 1 4 = 4
  ∧ check_guardian_key_subset 2 10
      (Fixture.last_step Fixture.keys23 (Fixture.payload 3 4)) Fixture.fresh
    = Value 0 (mkState {[ SLOTID_TEMP_0 := Uint 0 ]} Fixture.registry)
  ∧ check_guardian_key_subset 2 10
      (Fixture.last_step Fixture.keys01 (Fixture.payload 3 4)) Fixture.fresh
    = Value 1 (mkState {[ SLOTID_TEMP_0 := Uint 2 ]} Fixture.registry).
Proof.
  split.
  - intros capacity fuel e s s' n c Hn Hr Hc k Hk.
    by eapply check_guardian_key_subset_accepts.
  - repeat split; vm_compute; reflexivity.
Qed.

(** ** The approval program *)

Lemma handle_create_eval (e : Env) (s : State) :
  handle_create e s =
  match application_args (Txn e) !! 0%nat with
  | Some h => if Len h <=? 122 then Returned 1 (set_vphash h s) else Failed
  | None => Failed
  end.
Proof.
  unfold handle_create, bootstrap, application_arg, globalPut. unfold_monad.
  destruct (application_args (Txn e) !! 0%nat) as [h | ]; [ | done ].
  replace (Len (bytes_of_string "vphash")) with 6 by reflexivity.
  simpl.
  destruct (Z.leb_spec (6 + Len h) 128), (Z.leb_spec (Len h) 122);
    done || lia.
Qed.

Lemma handle_update_eval (e : Env) (s : State) :
  handle_update e s
  = Returned (Z.b2z (bool_decide (sender (Txn e) = creator_address e))) s.
Proof. reflexivity. Qed.

Lemma vaa_processor_program_eval (capacity : Z) (fuel : nat)
    (on_completion : OnComplete) (e : Env) (s : State) :
  vaa_processor_program capacity fuel on_completion e s =
  if application_id (Txn e) =? 0 then handle_create e s
  else match on_completion with
       | UpdateApplication => handle_update e s
       | DeleteApplication => handle_delete e s
       | NoOp => handle_noop capacity fuel e s
       | OptIn | CloseOut | ClearState => Failed
       end.
Proof.
  unfold vaa_processor_program. simpl. unfold_monad.
  destruct (application_id (Txn e) =? 0); [ done | ].
  by destruct on_completion.
Qed.

Lemma handle_noop_eval (capacity : Z) (fuel : nat) (e : Env) (s : State) :
  handle_noop capacity fuel e s =
  match application_args (Txn e) !! 0%nat with
  | Some method =>
      if bool_decide (method = bytes_of_string "setvphash") then setvphash e s
      else if bool_decide (method = bytes_of_string "verify")
           then verify capacity fuel e s
           else Failed
  | None => Failed
  end.
Proof.
  unfold handle_noop, METHOD_is, application_arg. simpl. unfold_monad.
  destruct (application_args (Txn e) !! 0%nat) as [method | ]; [ | done ].
  simpl.
  destruct (bool_decide (method = bytes_of_string "setvphash")); [ done | ].
  simpl.
  by destruct (bool_decide (method = bytes_of_string "verify")).
Qed.

Lemma setvphash_allowed_eval (e : Env) (s : State) (h : list byte) :
  setvphash_allowed e h → setvphash e s = Returned 1 (set_vphash h s).
Proof.
  intros (Hs & Hg & Hn & Ha & Hl).
  rewrite setvphash_eval, Ha.
  rewrite bool_decide_eq_true_2 by done.
  unfold application_args_length, Len. rewrite Hg, Hn, Hl. done.
Qed.

Lemma setvphash_cases (e : Env) (s : State) :
  setvphash e s = Failed ∨ ∃ h, setvphash_allowed e h.
Proof.
  rewrite setvphash_eval.
  destruct (application_args (Txn e) !! 1%nat) as [h | ] eqn:Ha; [ | by left ].
  destruct (_ && _) eqn:Hc; [ | by left ].
  right. exists h.
  apply andb_prop in Hc as [Hc H4]. apply andb_prop in Hc as [Hc H3].
  apply andb_prop in Hc as [H1 H2].
  apply bool_decide_eq_true_1 in H1.
  unfold application_args_length, Len in *.
  repeat split; [ done | lia | lia | done | lia ].
Qed.

Lemma verify_globals (capacity : Z) (fuel : nat) (e : Env) (s s' : State) (v : Z) :
  verify capacity fuel e s = Returned v s' → v = 1 ∧ globals s' = globals s.
Proof.
  intros Hr.
  apply verify_inv in Hr
    as (n & c5 & s3 & _ & _ & _ & _ & _ & H5 & _ & _ & _ & -> & ->).
  pose proof (framed_check_guardian_key_subset capacity fuel e (verify_state s))
    as Hframe.
  rewrite H5 in Hframe. by destruct Hframe as [Hglobals _].
Qed.

(** What a call that returns can have done to the global state: nothing,
    or one write of [vphash]. *)
Lemma vaa_processor_program_effect (capacity : Z) (fuel : nat)
    (on_completion : OnComplete) (e : Env) (s s' : State) (v : Z) :
  vaa_processor_program capacity fuel on_completion e s = Returned v s' →
  globals s' = globals s
  ∨ (v = 1 ∧ application_id (Txn e) = 0
     ∧ ∃ h, application_args (Txn e) !! 0%nat = Some h ∧ s' = set_vphash h s)
  ∨ (v = 1 ∧ application_id (Txn e) ≠ 0 ∧ on_completion = NoOp
     ∧ application_args (Txn e) !! 0%nat = Some (bytes_of_string "setvphash")
     ∧ ∃ h, setvphash_allowed e h ∧ s' = set_vphash h s).
Proof.
  rewrite vaa_processor_program_eval.
  destruct (Z.eqb_spec (application_id (Txn e)) 0) as [Hid | Hid].
  - rewrite handle_create_eval.
    destruct (application_args (Txn e) !! 0%nat) as [h | ] eqn:Hh; [ | done ].
    destruct (Len h <=? 122); [ | done ].
    intros [= <- <-]. right. left. split; [ done | ]. split; [ done | ].
    by exists h.
  - destruct on_completion; try done.
    + rewrite handle_noop_eval.
      destruct (application_args (Txn e) !! 0%nat) as [method | ] eqn:Hm;
        [ | done ].
      case_bool_decide as Hset.
      * intros Hr. right. right.
        destruct (setvphash_cases e s) as [Hf | [h Hh]].
        { rewrite Hf in Hr. discriminate. }
        rewrite (setvphash_allowed_eval e s h Hh) in Hr.
        injection Hr as <- <-.
        split; [ done | ]. split; [ done | ]. split; [ done | ].
        split; [ by rewrite Hset | ]. by exists h.
      * case_bool_decide; [ | done ].
        intros Hr. left. by apply verify_globals in Hr as [_ ?].
    + rewrite handle_update_eval. intros [= <- <-]. by left.
    + unfold handle_delete. fold (handle_update e).
      rewrite handle_update_eval. intros [= <- <-]. by left.
Qed.

(** X1. Run for a call that creates the application (application id 0),
    the approval program stores the first argument as [vphash] and returns
    1 when that argument has at most 122 bytes, whatever the completion
    action, the sender and the group; it fails when the argument is longer
    (the key and the value together exceed 128 bytes) and when there is no
    argument. *)
Theorem creation_installs_first_argument (capacity : Z) (fuel : nat)
    (on_completion : OnComplete) (e : Env) (s : State) :
  application_id (Txn e) = 0 →
  on_completion ≠ ClearState →
  vaa_processor_program capacity fuel on_completion e s =
  match application_args (Txn e) !! 0%nat with
  | Some h => if Len h <=? 122 then Returned 1 (set_vphash h s) else Failed
  | None => Failed
  end.
Proof.
  intros Hid _. rewrite vaa_processor_program_eval, Hid. simpl.
  apply handle_create_eval.
Qed.

Lemma creation_installs_first_argument_witness :
  vaa_processor_program 2 10 NoOp
    (mkEnv [] (mkTransaction Fixture.verifier ApplicationCall 0
                 [replicate 122 x07] [] ∅)
           [] Fixture.owner)
    Fixture.fresh
  = Returned 1 (set_vphash (replicate 122 x07) Fixture.fresh)
  ∧ vaa_processor_program 2 10 NoOp
      (mkEnv [] (mkTransaction Fixture.verifier ApplicationCall 0
                   [replicate 123 x07] [] ∅)
             [] Fixture.owner)
      Fixture.fresh
    = Failed.
Proof.
  split.
  - apply (creation_installs_first_argument 2 10 NoOp
             (mkEnv [] (mkTransaction Fixture.verifier ApplicationCall 0
                          [replicate 122 x07] [] ∅)
                    [] Fixture.owner)
             Fixture.fresh).
    + reflexivity.
    + discriminate.
  - apply (creation_installs_first_argument 2 10 NoOp
             (mkEnv [] (mkTransaction Fixture.verifier ApplicationCall 0
                          [replicate 123 x07] [] ∅)
                    [] Fixture.owner)
             Fixture.fresh).
    + reflexivity.
    + discriminate.
Defined.

(** X2. On an existing application, an update or a delete call returns 1
    when its sender is the creator and 0 otherwise, and leaves the state as
    it is: it is approved exactly for the creator. *)
Theorem update_and_delete_need_the_creator (capacity : Z) (fuel : nat)
    (on_completion : OnComplete) (e : Env) (s : State) :
  application_id (Txn e) ≠ 0 →
  on_completion = UpdateApplication ∨ on_completion = DeleteApplication →
  vaa_processor_program capacity fuel on_completion e s
  = Returned (Z.b2z (bool_decide (sender (Txn e) = creator_address e))) s
  ∧ (approved (vaa_processor_program capacity fuel on_completion e s)
     ↔ sender (Txn e) = creator_address e).
Proof.
  intros Hid Hoc.
  assert (vaa_processor_program capacity fuel on_completion e s
          = Returned (Z.b2z (bool_decide (sender (Txn e) = creator_address e))) s)
    as Heval.
  { rewrite vaa_processor_program_eval.
    destruct (Z.eqb_spec (application_id (Txn e)) 0); [ done | ].
    by destruct Hoc as [-> | ->]. }
  split; [ done | ]. rewrite Heval. split.
  - intros (v & s' & [= <- <-] & Hv). by case_bool_decide.
  - intros Hs. eexists _, _. split; [ done | ].
    by rewrite bool_decide_eq_true_2.
Qed.

Lemma update_and_delete_need_the_creator_witness :
  approved (vaa_processor_program 2 10 UpdateApplication
              (Fixture.setvphash_call Fixture.owner []) Fixture.fresh)
  ↔ sender (Txn (Fixture.setvphash_call Fixture.owner []))
    = creator_address (Fixture.setvphash_call Fixture.owner []).
Proof.
  apply (update_and_delete_need_the_creator 2 10 UpdateApplication
           (Fixture.setvphash_call Fixture.owner []) Fixture.fresh).
  - vm_compute. discriminate.
  - left. reflexivity.
Defined.

(** X3. On an existing application the approval program fails on the
    completion actions opt-in and close-out, on a no-op call without
    arguments, and on a no-op call whose first argument is neither
    "setvphash" nor "verify". *)
Theorem program_rejects_unknown_calls (capacity : Z) (fuel : nat)
    (on_completion : OnComplete) (e : Env) (s : State) :
  application_id (Txn e) ≠ 0 →
  (on_completion = OptIn ∨ on_completion = CloseOut)
  ∨ (on_completion = NoOp ∧ application_args (Txn e) = [])
  ∨ (on_completion = NoOp
     ∧ ∃ method, application_args (Txn e) !! 0%nat = Some method
                 ∧ method ≠ bytes_of_string "setvphash"
                 ∧ method ≠ bytes_of_string "verify") →
  vaa_processor_program capacity fuel on_completion e s = Failed.
Proof.
  intros Hid Hcase. rewrite vaa_processor_program_eval.
  destruct (Z.eqb_spec (application_id (Txn e)) 0); [ done | ].
  destruct Hcase as [[-> | ->] | [[-> Hargs] | [-> (m & Hm & H1 & H2)]]];
    try done.
  - rewrite handle_noop_eval, Hargs. done.
  - rewrite handle_noop_eval, Hm.
    by rewrite !bool_decide_eq_false_2.
Qed.

Lemma program_rejects_unknown_calls_witness :
  vaa_processor_program 2 10 NoOp
    (Fixture.setvphash_call Fixture.owner [bytes_of_string "setgscount"; [x04]])
    Fixture.fresh
  = Failed.
Proof.
  apply (program_rejects_unknown_calls 2 10 NoOp
           (Fixture.setvphash_call Fixture.owner
              [bytes_of_string "setgscount"; [x04]])
           Fixture.fresh).
  - vm_compute. discriminate.
  - right. right. split; [ reflexivity | ].
    exists (bytes_of_string "setgscount").
    split; [ reflexivity | split; vm_compute; discriminate ].
Defined.

(** X4. Whatever call the program returns from, every key of the global
    state other than [vphash] holds what it held before: no path of the
    program writes the guardian count, its expiration or a guardian key. *)
Theorem program_writes_only_vphash (capacity : Z) (fuel : nat)
    (on_completion : OnComplete) (e : Env) (s s' : State) (v : Z) :
  vaa_processor_program capacity fuel on_completion e s = Returned v s' →
  ∀ key, key ≠ bytes_of_string "vphash" →
         globals s' !! key = globals s !! key.
Proof.
  intros Hr key Hkey.
  apply vaa_processor_program_effect in Hr
    as [-> | [(_ & _ & h & _ & ->) | (_ & _ & _ & _ & h & _ & ->)]];
    [ done | | ]; simpl; by rewrite lookup_insert_ne.
Qed.

Lemma program_writes_only_vphash_witness :
  globals (set_vphash Fixture.new_hash Fixture.fresh) !! Itob 2
  = globals Fixture.fresh !! Itob 2.
Proof.
  apply (program_writes_only_vphash 2 10 NoOp
           (Fixture.setvphash_call Fixture.owner
              [bytes_of_string "setvphash"; Fixture.new_hash])
           Fixture.fresh (set_vphash Fixture.new_hash Fixture.fresh) 1).
  - vm_compute. reflexivity.
  - vm_compute. discriminate.
Defined.

(** X5. A call on an existing application that returns either leaves the
    global state as it is, or it is a no-op call of the creator, alone in
    its group, with the method "setvphash" and a 32-byte second argument,
    which becomes the new [vphash]. *)
Theorem existing_application_vphash_authority (capacity : Z) (fuel : nat)
    (on_completion : OnComplete) (e : Env) (s s' : State) (v : Z) :
  application_id (Txn e) ≠ 0 →
  vaa_processor_program capacity fuel on_completion e s = Returned v s' →
  globals s' = globals s
  ∨ (on_completion = NoOp
     ∧ sender (Txn e) = creator_address e
     ∧ group_size e = 1
     ∧ application_args (Txn e) !! 0%nat = Some (bytes_of_string "setvphash")
     ∧ ∃ h, application_args (Txn e) !! 1%nat = Some h
            ∧ length h = 32%nat
            ∧ globals s' = <[bytes_of_string "vphash" := Bytes h]> (globals s)).
Proof.
  intros Hid Hr.
  apply vaa_processor_program_effect in Hr
    as [-> | [(_ & Hid0 & _) | (_ & _ & -> & Hm & h & Hh & ->)]];
    [ by left | done | ].
  right. destruct Hh as (Hs & Hg & _ & Ha & Hl).
  repeat split; try done. by exists h.
Qed.

Lemma existing_application_vphash_authority_witness :
  globals (set_vphash Fixture.new_hash Fixture.fresh) = globals Fixture.fresh
  ∨ (NoOp = NoOp
     ∧ Fixture.owner = Fixture.owner
     ∧ group_size (Fixture.setvphash_call Fixture.owner
                     [bytes_of_string "setvphash"; Fixture.new_hash]) = 1
     ∧ [bytes_of_string "setvphash"; Fixture.new_hash] !! 0%nat
       = Some (bytes_of_string "setvphash")
     ∧ ∃ h, [bytes_of_string "setvphash"; Fixture.new_hash] !! 1%nat = Some h
            ∧ length h = 32%nat
            ∧ globals (set_vphash Fixture.new_hash Fixture.fresh)
              = <[bytes_of_string "vphash" := Bytes h]> (globals Fixture.fresh)).
Proof.
  apply (existing_application_vphash_authority 2 10 NoOp
           (Fixture.setvphash_call Fixture.owner
              [bytes_of_string "setvphash"; Fixture.new_hash])
           Fixture.fresh (set_vphash Fixture.new_hash Fixture.fresh) 1).
  - vm_compute. discriminate.
  - vm_compute. reflexivity.
Defined.

(** ** Sequences of calls *)

Lemma vaa_processor_program_other_keys (capacity : Z) (fuel : nat)
    (on_completion : OnComplete) (e : Env) (s s' : State) (v : Z)
    (key : list byte) :
  vaa_processor_program capacity fuel on_completion e s = Returned v s' →
  key ≠ bytes_of_string "vphash" →
  globals s' !! key = globals s !! key.
Proof.
  intros Hr Hkey.
  apply vaa_processor_program_effect in Hr
    as [-> | [(_ & _ & h & _ & ->) | (_ & _ & _ & _ & h & _ & ->)]];
    [ done | | ]; simpl; by rewrite lookup_insert_ne.
Qed.

Lemma call_program_other_keys (capacity : Z) (fuel : nat)
    (g : gmap (list byte) TealValue) (c : OnComplete * Env) (key : list byte) :
  key ≠ bytes_of_string "vphash" →
  call_program capacity fuel g c !! key = g !! key.
Proof.
  intros Hkey. unfold call_program, state_after.
  destruct c as [on_completion e]. simpl.
  destruct on_completion; try done.
  all: match goal with
       | |- context [vaa_processor_program ?a ?b ?oc ?e' ?st] =>
           destruct (vaa_processor_program a b oc e' st)
             as [? ? | v s' | | ] eqn:Hr
       end; try done.
  all: destruct (v =? 0); [ done | ].
  all: by apply (vaa_processor_program_other_keys _ _ _ _ _ _ _ key) in Hr.
Qed.

Lemma run_calls_other_keys (capacity : Z) (fuel : nat)
    (calls : list (OnComplete * Env)) :
  ∀ (g : gmap (list byte) TealValue) (key : list byte),
    key ≠ bytes_of_string "vphash" →
    run_calls capacity fuel g calls !! key = g !! key.
Proof.
  induction calls as [ | c calls IH]; intros g key Hkey; [ done | ].
  unfold run_calls in *. simpl. rewrite IH by done.
  by apply call_program_other_keys.
Qed.

Lemma get_group_size_0 (capacity : Z) : get_group_size capacity 0 = 0.
Proof. unfold get_group_size. by rewrite Zdiv_0_l, Zmod_0_l. Qed.

Lemma verify_without_guardians (capacity : Z) (fuel : nat) (e : Env)
    (s s' : State) (v : Z) :
  NUM_GUARDIANS s = Value (Uint 0) s →
  verify capacity fuel e s ≠ Returned v s'.
Proof.
  intros Hn Hr.
  apply verify_inv in Hr as (n & c5 & s3 & Hn' & _ & _ & Hg & _).
  rewrite Hn in Hn'. injection Hn' as <-.
  rewrite get_group_size_0 in Hg.
  pose proof (group_size_pos e). lia.
Qed.

(** X6. A sequence of calls of the program, each with any completion
    action, sender, arguments and group, leaves every key of the global
    state other than [vphash] as it was at the start. *)
Theorem run_calls_keep_the_registry (capacity : Z) (fuel : nat)
    (g : gmap (list byte) TealValue) (calls : list (OnComplete * Env))
    (key : list byte) :
  key ≠ bytes_of_string "vphash" →
  run_calls capacity fuel g calls !! key = g !! key.
Proof. intros Hkey. by apply run_calls_other_keys. Qed.

Lemma run_calls_keep_the_registry_witness :
  run_calls 2 10 Fixture.registry
    [ (NoOp, Fixture.setvphash_call Fixture.owner
               [bytes_of_string "setvphash"; Fixture.new_hash]);
      (NoOp, Fixture.first_step (Fixture.payload 3 4)) ]
    !! bytes_of_string "gscount"
  = Fixture.registry !! bytes_of_string "gscount".
Proof.
  apply (run_calls_keep_the_registry 2 10 Fixture.registry
           [ (NoOp, Fixture.setvphash_call Fixture.owner
                      [bytes_of_string "setvphash"; Fixture.new_hash]);
             (NoOp, Fixture.first_step (Fixture.payload 3 4)) ]
           (bytes_of_string "gscount")).
  vm_compute. discriminate.
Defined.

(** X7. [verify] is never approved in a state whose guardian count
    [gscount] is missing or 0: the group would have to be of size 0. *)
Theorem verify_needs_guardians (capacity : Z) (fuel : nat) (e : Env) (s : State) :
  NUM_GUARDIANS s = Value (Uint 0) s →
  ¬ approved (verify capacity fuel e s).
Proof.
  intros Hn (v & s' & Hr & _). by eapply verify_without_guardians.
Qed.

Lemma verify_needs_guardians_witness :
  ¬ approved (verify 2 10 (Fixture.first_step (Fixture.payload 3 4))
                (mkState ∅ ∅)).
Proof.
  apply (verify_needs_guardians 2 10 (Fixture.first_step (Fixture.payload 3 4))
           (mkState ∅ ∅)).
  reflexivity.
Defined.

(** X8. Starting from an empty global state, after any sequence of calls
    of the program no [verify] call is approved, whatever its group, its
    arguments, its scratch space and its budget: the program has no call
    that stores a guardian count. *)
Theorem verify_never_approved_after_any_calls (capacity : Z) (fuel fuel' : nat)
    (calls : list (OnComplete * Env)) (e : Env) (sc : gmap Z TealValue) :
  ¬ approved (verify capacity fuel' e
                (mkState sc (run_calls capacity fuel ∅ calls))).
Proof.
  intros (v & s' & Hr & _).
  eapply verify_without_guardians; [ | exact Hr ].
  unfold NUM_GUARDIANS, globalGet. simpl.
  rewrite run_calls_other_keys by (vm_compute; discriminate).
  by rewrite lookup_empty.
Qed.

(** ** More on the verification step *)

Lemma verify_approved_keys (capacity : Z) (fuel : nat) (e : Env)
    (s s' : State) (v : Z) :
  verify capacity fuel e s = Returned v s' →
  ∃ n, NUM_GUARDIANS s = Value (Uint n) s
       ∧ ∀ k, 0 ≤ k < get_sig_count_in_step capacity (group_index e) n →
              key_matches e s k.
Proof.
  intros Hr.
  apply verify_inv in Hr
    as (n & c5 & s3 & Hn & _ & _ & _ & _ & H5 & Hc5 & _).
  exists n. split; [ done | ]. intros k Hk.
  apply key_matches_globals with (s := verify_state s); [ done | ].
  eapply check_guardian_key_subset_accepts; [ | exact H5 | done | done ].
  unfold NUM_GUARDIANS, globalGet in *. simpl. congruence.
Qed.

(** X9. An approved [verify] call carries, at every position [k] below
    the signature count of its step, the key that the registry stores under
    index [k]. *)
Theorem verify_approved_carries_registry_keys (capacity : Z) (fuel : nat)
    (e : Env) (s : State) :
  approved (verify capacity fuel e s) →
  ∃ n, NUM_GUARDIANS s = Value (Uint n) s
       ∧ ∀ k, 0 ≤ k < get_sig_count_in_step capacity (group_index e) n →
              key_matches e s k.
Proof. intros (v & s' & Hr & _). by eapply verify_approved_keys. Qed.

Lemma verify_approved_carries_registry_keys_witness :
  ∃ n, NUM_GUARDIANS Fixture.fresh = Value (Uint n) Fixture.fresh
       ∧ ∀ k, 0 ≤ k < get_sig_count_in_step 2
                         (group_index (Fixture.first_step (Fixture.payload 3 4))) n →
              key_matches (Fixture.first_step (Fixture.payload 3 4)) Fixture.fresh k.
Proof.
  apply (verify_approved_carries_registry_keys 2 10
           (Fixture.first_step (Fixture.payload 3 4)) Fixture.fresh).
  exists 1, (mkState {[ SLOTID_TEMP_0 := Uint 2; SLOTID_VERIFIED_BIT := Uint 1 ]}
                     Fixture.registry).
  split; [ vm_compute; reflexivity | lia ].
Defined.

(** X10. A [verify] call that is not the last of its group is approved
    when the group size is the step count for [gscount], there are three
    arguments, the sender is [vphash], the third argument decodes to
    [gscount], every carried key matches the registry key of the same
    position, and the budget covers one loop iteration per key. *)
Theorem verify_approves_checked_step (capacity : Z) (fuel : nat) (e : Env)
    (s : State) (n : Z) (claimed : list byte) :
  NUM_GUARDIANS s = Value (Uint n) s →
  group_size e = get_group_size capacity n →
  application_args_length e = 3 →
  STATELESS_LOGIC_HASH s = Value (Bytes (sender (Txn e))) s →
  VERIFY_ARG_GUARDIAN_SET_SIZE e s = Value claimed s →
  Btoi claimed = Some n →
  (∀ k, 0 ≤ k < get_sig_count_in_step capacity (group_index e) n →
        key_matches e s k) →
  get_sig_count_in_step capacity (group_index e) n * 64 ≤ uint64_max →
  (Z.to_nat (get_sig_count_in_step capacity (group_index e) n) < fuel)%nat →
  group_index e < 64 →
  group_index e ≠ group_size e - 1 →
  approved (verify capacity fuel e s).
Proof.
  intros Hn Hg Ha Hh Hc Hb Hkeys Hmax Hfuel Hidx Hlast.
  destruct (verify_step_approved capacity fuel e s n claimed) as [s' Hr];
    try done.
  exists 1, s'. split; [ done | lia ].
Qed.

Lemma verify_approves_checked_step_witness :
  approved (verify 2 3 (Fixture.first_step (Fixture.payload 3 4)) Fixture.fresh).
Proof.
  apply (verify_approves_checked_step 2 3
           (Fixture.first_step (Fixture.payload 3 4)) Fixture.fresh 4 (Itob 4)).
  - reflexivity.
  - reflexivity.
  - reflexivity.
  - reflexivity.
  - reflexivity.
  - reflexivity.
  - intros k Hk.
    assert (get_sig_count_in_step 2
              (group_index (Fixture.first_step (Fixture.payload 3 4))) 4 = 2)
      as Hcount by reflexivity.
    assert (k = 0 ∨ k = 1) as [-> | ->] by lia.
    + exists Fixture.keys01, (Fixture.guardian_key 0).
      repeat split; vm_compute; reflexivity.
    + exists Fixture.keys01, (Fixture.guardian_key 1).
      repeat split; vm_compute; reflexivity.
  - vm_compute. discriminate.
  - vm_compute. lia.
  - vm_compute. reflexivity.
  - vm_compute. discriminate.
Defined.

(** ** The administrative call and the steps *)

(** X11. After an approved [setvphash] call that installs the hash [h],
    every approved [verify] call has [h] as its sender. *)
Theorem setvphash_then_verify (capacity : Z) (fuel : nat) (e1 e2 : Env)
    (s : State) (h : list byte) :
  setvphash_allowed e1 h →
  approved (verify capacity fuel e2 (state_after s (setvphash e1 s))) →
  sender (Txn e2) = h.
Proof.
  intros Hh (v & s' & Hr & _).
  rewrite (setvphash_allowed_eval e1 s h Hh) in Hr. simpl in Hr.
  apply verify_inv in Hr as (n & c5 & s3 & _ & Hhash & _).
  unfold STATELESS_LOGIC_HASH, globalGet in Hhash. simpl in Hhash.
  rewrite lookup_insert_eq in Hhash. simpl in Hhash. congruence.
Qed.

Lemma setvphash_then_verify_witness :
  sender (Txn (Fixture.first_step (Fixture.payload 3 4))) = Fixture.verifier.
Proof.
  apply (setvphash_then_verify 2 10
           (Fixture.setvphash_call Fixture.owner
              [bytes_of_string "setvphash"; Fixture.verifier])
           (Fixture.first_step (Fixture.payload 3 4))
           Fixture.fresh Fixture.verifier).
  - vm_compute. repeat split.
  - exists 1, (mkState {[ SLOTID_TEMP_0 := Uint 2; SLOTID_VERIFIED_BIT := Uint 1 ]}
                       Fixture.registry).
    split; [ vm_compute; reflexivity | lia ].
Defined.

(** X12. Of two approved [setvphash] calls in a row the second one wins:
    the state is the one that the second call alone would have produced. *)
Theorem setvphash_twice (e1 e2 : Env) (s : State) (h1 h2 : list byte) :
  setvphash_allowed e1 h1 →
  setvphash_allowed e2 h2 →
  state_after (state_after s (setvphash e1 s))
              (setvphash e2 (state_after s (setvphash e1 s)))
  = state_after s (setvphash e2 s).
Proof.
  intros H1 H2.
  rewrite (setvphash_allowed_eval e1 s h1 H1). simpl.
  rewrite !(setvphash_allowed_eval e2 _ h2 H2). simpl.
  unfold set_vphash. simpl. by rewrite insert_insert_eq.
Qed.

Lemma setvphash_twice_witness :
  state_after
    (state_after Fixture.fresh
       (setvphash (Fixture.setvphash_call Fixture.owner
                     [bytes_of_string "setvphash"; Fixture.verifier])
          Fixture.fresh))
    (setvphash (Fixture.setvphash_call Fixture.owner
                  [bytes_of_string "setvphash"; Fixture.new_hash])
       (state_after Fixture.fresh
          (setvphash (Fixture.setvphash_call Fixture.owner
                        [bytes_of_string "setvphash"; Fixture.verifier])
             Fixture.fresh)))
  = state_after Fixture.fresh
      (setvphash (Fixture.setvphash_call Fixture.owner
                    [bytes_of_string "setvphash"; Fixture.new_hash])
         Fixture.fresh).
Proof.
  apply (setvphash_twice
           (Fixture.setvphash_call Fixture.owner
              [bytes_of_string "setvphash"; Fixture.verifier])
           (Fixture.setvphash_call Fixture.owner
              [bytes_of_string "setvphash"; Fixture.new_hash])
           Fixture.fresh Fixture.verifier Fixture.new_hash).
  - vm_compute. repeat split.
  - vm_compute. repeat split.
Defined.

(** ** Runs of the guardian-key loop *)

Section KeySubsetRuns.

Variables (capacity : Z) (e : Env).

Let cond : M Z :=
  i ← SLOT_TEMP_load;
  n ← NUM_GUARDIANS;
  n ← as_uint n;
  ret (Lt i (get_sig_count_in_step capacity (group_index e) n)).

Let step : M unit :=
  i ← SLOT_TEMP_load;
  i' ← lift (Add i 1);
  store SLOTID_TEMP_0 (Uint i').

Let body : M unit :=
  i ← SLOT_TEMP_load;
  stored ← globalGet (Itob i);
  keys ← VERIFY_ARG_GUARDIAN_KEY_SUBSET e;
  j ← SLOT_TEMP_load;
  offset ← lift (Mul j 64);
  key ← lift (Extract keys offset 64);
  c ← lift (Neq stored (Bytes key));
  IfThen c (Return 0).

(** The state of the loop when its counter is [i]. *)
Let at_counter (s : State) (i : Z) : State :=
  mkState (<[SLOTID_TEMP_0 := Uint i]> (scratch s)) (globals s).

Lemma at_counter_load (s : State) (i : Z) :
  SLOT_TEMP_load (at_counter s i) = Value i (at_counter s i).
Proof.
  unfold SLOT_TEMP_load, load, at_counter. unfold_monad. simpl.
  by rewrite lookup_insert_eq.
Qed.

Lemma at_counter_cond (s : State) (i n : Z) :
  NUM_GUARDIANS s = Value (Uint n) s →
  cond (at_counter s i)
  = Value (Lt i (get_sig_count_in_step capacity (group_index e) n))
          (at_counter s i).
Proof.
  intros Hn. unfold cond, mbind, M_bind, bind. rewrite at_counter_load.
  unfold NUM_GUARDIANS, globalGet in *. simpl.
  injection Hn as ->. done.
Qed.

Lemma at_counter_step (s : State) (i : Z) :
  i + 1 ≤ uint64_max →
  step (at_counter s i) = Value tt (at_counter s (i + 1)).
Proof.
  intros Hi. unfold step, mbind, M_bind, bind. rewrite at_counter_load.
  unfold lift, Add. destruct (Z.leb_spec (i + 1) uint64_max); [ | lia ].
  unfold store, at_counter. simpl. by rewrite insert_insert_eq.
Qed.

Lemma at_counter_body_match (s : State) (i : Z) :
  i * 64 ≤ uint64_max →
  key_matches e s i →
  body (at_counter s i) = Value tt (at_counter s i).
Proof.
  intros Hi (keys & key & Harg & Hkey & Hstored).
  unfold body, mbind, M_bind, bind. rewrite at_counter_load.
  unfold VERIFY_ARG_GUARDIAN_KEY_SUBSET, application_arg, lift, globalGet in *.
  simpl. injection Hstored as ->.
  destruct (application_args (Txn e) !! 1%nat) as [keys' | ]; [ | done ].
  injection Harg as ->. rewrite at_counter_load.
  unfold Mul. destruct (Z.leb_spec (i * 64) uint64_max); [ | lia ].
  rewrite Hkey. unfold Neq. simpl. by rewrite bool_decide_eq_true_2.
Qed.

(** Matching keys are passed over one iteration each. *)
Lemma key_loop_advance (m : nat) :
  ∀ (fuel : nat) (s : State) (i n : Z),
    NUM_GUARDIANS s = Value (Uint n) s →
    0 ≤ i →
    i + Z.of_nat m ≤ get_sig_count_in_step capacity (group_index e) n →
    get_sig_count_in_step capacity (group_index e) n * 64 ≤ uint64_max →
    (∀ k, i ≤ k < i + Z.of_nat m → key_matches e s k) →
    For_loop (m + fuel) cond step body (at_counter s i)
    = For_loop fuel cond step body (at_counter s (i + Z.of_nat m)).
Proof.
  induction m as [ | m IH]; intros fuel s i n Hn Hi Hm Hmax Hkeys.
  - simpl. by rewrite Z.add_0_r.
  - simpl. unfold mbind at 1, M_bind at 1, bind at 1.
    rewrite (at_counter_cond s i n Hn). unfold Lt.
    destruct (Z.ltb_spec i (get_sig_count_in_step capacity (group_index e) n));
      [ | lia ].
    simpl. unfold mbind at 1, M_bind at 1, bind at 1.
    rewrite at_counter_body_match; [ | lia | apply Hkeys; lia ].
    unfold mbind at 1, M_bind at 1, bind at 1.
    rewrite at_counter_step by lia.
    rewrite (IH fuel s (i + 1) n); try done; try lia.
    + f_equal. f_equal. lia.
    + intros k Hk. apply Hkeys. lia.
Qed.

Lemma check_guardian_key_subset_unfold (fuel : nat) (s : State) :
  check_guardian_key_subset capacity fuel e s =
  match For_loop fuel cond step body (at_counter s 0) with
  | Value _ s' => Value 1 s'
  | Returned v s' => Value v s'
  | Failed => Failed
  | OutOfBudget => OutOfBudget
  end.
Proof.
  unfold check_guardian_key_subset, Subroutine, For. fold cond step body.
  unfold mbind at 1 2, M_bind at 1 2, bind at 1 2. unfold store at 1.
  fold (at_counter s 0).
  by destruct (For_loop fuel cond step body (at_counter s 0)).
Qed.

(** The run up to position [j], where the keys before [j] match. *)
Lemma check_guardian_key_subset_run (fuel : nat) (s : State) (n j : Z) :
  NUM_GUARDIANS s = Value (Uint n) s →
  0 ≤ j ≤ get_sig_count_in_step capacity (group_index e) n →
  get_sig_count_in_step capacity (group_index e) n * 64 ≤ uint64_max →
  (∀ k, 0 ≤ k < j → key_matches e s k) →
  check_guardian_key_subset capacity (Z.to_nat j + fuel) e s =
  match For_loop fuel cond step body (at_counter s j) with
  | Value _ s' => Value 1 s'
  | Returned v s' => Value v s'
  | Failed => Failed
  | OutOfBudget => OutOfBudget
  end.
Proof.
  intros Hn Hj Hmax Hkeys.
  rewrite check_guardian_key_subset_unfold.
  rewrite (key_loop_advance (Z.to_nat j) fuel s 0 n); try done; try lia.
  - replace (0 + Z.of_nat (Z.to_nat j)) with j by lia. done.
  - intros k Hk. apply Hkeys. lia.
Qed.

(** All keys match: the check returns 1 and leaves the count in the
    counter slot. *)
Lemma check_guardian_key_subset_all_match (fuel : nat) (s : State) (n : Z) :
  NUM_GUARDIANS s = Value (Uint n) s →
  get_sig_count_in_step capacity (group_index e) n * 64 ≤ uint64_max →
  (∀ k, 0 ≤ k < get_sig_count_in_step capacity (group_index e) n →
        key_matches e s k) →
  check_guardian_key_subset capacity
    (Z.to_nat (get_sig_count_in_step capacity (group_index e) n) + S fuel) e s
  = Value 1 (mkState (<[SLOTID_TEMP_0 :=
                          Uint (get_sig_count_in_step capacity (group_index e) n)]>
                        (scratch s))
                     (globals s)).
Proof.
  intros Hn Hmax Hkeys.
  assert (0 ≤ get_sig_count_in_step capacity (group_index e) n) as Hc
    by (unfold get_sig_count_in_step; lia).
  rewrite (check_guardian_key_subset_run (S fuel) s n
             (get_sig_count_in_step capacity (group_index e) n));
    try done; try lia.
  simpl. unfold mbind at 1, M_bind at 1, bind at 1.
  rewrite (at_counter_cond s _ n Hn). unfold Lt.
  destruct (Z.ltb_spec (get_sig_count_in_step capacity (group_index e) n)
              (get_sig_count_in_step capacity (group_index e) n)); [ lia | ].
  done.
Qed.

(** The key at position [j] is stored but differs: the check returns 0 with
    the counter at [j]. *)
Lemma check_guardian_key_subset_mismatch (fuel : nat) (s : State) (n j : Z)
    (keys key stored : list byte) :
  NUM_GUARDIANS s = Value (Uint n) s →
  0 ≤ j < get_sig_count_in_step capacity (group_index e) n →
  get_sig_count_in_step capacity (group_index e) n * 64 ≤ uint64_max →
  (∀ k, 0 ≤ k < j → key_matches e s k) →
  application_args (Txn e) !! 1%nat = Some keys →
  Extract keys (j * 64) 64 = Some key →
  globals s !! Itob j = Some (Bytes stored) →
  stored ≠ key →
  check_guardian_key_subset capacity (Z.to_nat j + S fuel) e s
  = Value 0 (mkState (<[SLOTID_TEMP_0 := Uint j]> (scratch s)) (globals s)).
Proof.
  intros Hn Hj Hmax Hkeys Harg Hkey Hstored Hne.
  rewrite (check_guardian_key_subset_run (S fuel) s n j); try done; try lia.
  simpl. unfold mbind at 1, M_bind at 1, bind at 1.
  rewrite (at_counter_cond s _ n Hn). unfold Lt.
  destruct (Z.ltb_spec j (get_sig_count_in_step capacity (group_index e) n));
    [ | lia ].
  simpl. unfold mbind at 1, M_bind at 1, bind at 1.
  unfold body at 1, mbind, M_bind, bind. rewrite at_counter_load.
  unfold VERIFY_ARG_GUARDIAN_KEY_SUBSET, application_arg, lift, globalGet.
  simpl. rewrite Hstored, Harg, at_counter_load. simpl.
  unfold Mul. destruct (Z.leb_spec (j * 64) uint64_max); [ | lia ].
  rewrite Hkey. unfold Neq. simpl.
  by rewrite bool_decide_eq_false_2.
Qed.

(** The registry holds no byte string at position [j], or the argument is
    too short to hold a key at position [j]: the check fails. *)
Lemma check_guardian_key_subset_fails (fuel : nat) (s : State) (n j : Z) :
  NUM_GUARDIANS s = Value (Uint n) s →
  0 ≤ j < get_sig_count_in_step capacity (group_index e) n →
  get_sig_count_in_step capacity (group_index e) n * 64 ≤ uint64_max →
  (∀ k, 0 ≤ k < j → key_matches e s k) →
  (∀ stored, globals s !! Itob j ≠ Some (Bytes stored))
  ∨ (∀ keys, application_args (Txn e) !! 1%nat = Some keys →
             Len keys < j * 64 + 64) →
  check_guardian_key_subset capacity (Z.to_nat j + S fuel) e s = Failed.
Proof.
  intros Hn Hj Hmax Hkeys Hcause.
  rewrite (check_guardian_key_subset_run (S fuel) s n j); try done; try lia.
  simpl. unfold mbind at 1, M_bind at 1, bind at 1.
  rewrite (at_counter_cond s _ n Hn). unfold Lt.
  destruct (Z.ltb_spec j (get_sig_count_in_step capacity (group_index e) n));
    [ | lia ].
  simpl. unfold mbind at 1, M_bind at 1, bind at 1.
  unfold body at 1, mbind, M_bind, bind. rewrite at_counter_load.
  unfold VERIFY_ARG_GUARDIAN_KEY_SUBSET, application_arg, lift, globalGet.
  simpl.
  destruct (application_args (Txn e) !! 1%nat) as [keys | ] eqn:Harg;
    [ | done ].
  rewrite at_counter_load. simpl.
  unfold Mul. destruct (Z.leb_spec (j * 64) uint64_max); [ | lia ].
  destruct Hcause as [Hmissing | Hshort].
  - destruct (Extract keys (j * 64) 64) as [key | ]; [ | done ].
    destruct (globals s !! Itob j) as [[x | stored] | ] eqn:Hg; simpl; try done.
    by destruct (Hmissing stored).
  - rewrite Extract_None; [ done | ]. specialize (Hshort keys eq_refl). lia.
Qed.

End KeySubsetRuns.

Lemma check_guardian_key_subset_accepts_matching (capacity : Z) (fuel : nat)
    (e : Env) (s : State) (n : Z) :
  NUM_GUARDIANS s = Value (Uint n) s →
  get_sig_count_in_step capacity (group_index e) n * 64 ≤ uint64_max →
  (Z.to_nat (get_sig_count_in_step capacity (group_index e) n) < fuel)%nat →
  (∀ k, 0 ≤ k < get_sig_count_in_step capacity (group_index e) n →
        key_matches e s k) →
  check_guardian_key_subset capacity fuel e s
  = Value 1 (mkState (<[SLOTID_TEMP_0 :=
                          Uint (get_sig_count_in_step capacity (group_index e) n)]>
                        (scratch s))
                     (globals s)).
Proof.
  intros Hn Hmax Hfuel Hkeys.
  replace fuel
    with (Z.to_nat (get_sig_count_in_step capacity (group_index e) n)
          + S (fuel - Z.to_nat (get_sig_count_in_step capacity (group_index e) n) - 1))%nat
    by lia.
  by apply check_guardian_key_subset_all_match.
Qed.

(** X13. When every carried key matches the registry key of its position
    and the budget exceeds the signature count of the step,
    [check_guardian_key_subset] returns 1; it leaves the signature count
    in scratch slot 251 and changes nothing else.  With a signature count
    of 0 this holds without any argument being read. *)
Theorem check_guardian_key_subset_accepts_matching_keys (capacity : Z)
    (fuel : nat) (e : Env) (s : State) (n : Z) :
  NUM_GUARDIANS s = Value (Uint n) s →
  get_sig_count_in_step capacity (group_index e) n * 64 ≤ uint64_max →
  (Z.to_nat (get_sig_count_in_step capacity (group_index e) n) < fuel)%nat →
  (∀ k, 0 ≤ k < get_sig_count_in_step capacity (group_index e) n →
        key_matches e s k) →
  check_guardian_key_subset capacity fuel e s
  = Value 1 (mkState (<[SLOTID_TEMP_0 :=
                          Uint (get_sig_count_in_step capacity (group_index e) n)]>
                        (scratch s))
                     (globals s)).
Proof.
  intros Hn Hmax Hfuel Hkeys.
  replace fuel
    with (Z.to_nat (get_sig_count_in_step capacity (group_index e) n)
          + S (fuel - Z.to_nat (get_sig_count_in_step capacity (group_index e) n) - 1))%nat
    by lia.
  by apply check_guardian_key_subset_all_match.
Qed.

Lemma check_guardian_key_subset_accepts_matching_keys_witness :
  check_guardian_key_subset 2 3 (Fixture.first_step (Fixture.payload 3 4))
    Fixture.fresh
  = Value 1 (mkState (<[SLOTID_TEMP_0 :=
                          Uint (get_sig_count_in_step 2
                                  (group_index (Fixture.first_step (Fixture.payload 3 4)))
                                  4)]>
                        (scratch Fixture.fresh))
                     (globals Fixture.fresh)).
Proof.
  apply (check_guardian_key_subset_accepts_matching_keys 2 3
           (Fixture.first_step (Fixture.payload 3 4)) Fixture.fresh 4).
  - reflexivity.
  - vm_compute. discriminate.
  - vm_compute. lia.
  - intros k Hk.
    assert (get_sig_count_in_step 2
              (group_index (Fixture.first_step (Fixture.payload 3 4))) 4 = 2)
      as Hcount by reflexivity.
    assert (k = 0 ∨ k = 1) as [-> | ->] by lia.
    + exists Fixture.keys01, (Fixture.guardian_key 0).
      repeat split; vm_compute; reflexivity.
    + exists Fixture.keys01, (Fixture.guardian_key 1).
      repeat split; vm_compute; reflexivity.
Defined.

(** X14. When the keys before position [j] match and the registry key of
    index [j] differs from the carried key of position [j],
    [check_guardian_key_subset] returns 0 as soon as the budget exceeds [j];
    it stops there, with [j] in scratch slot 251, without looking at the
    later keys. *)
Theorem check_guardian_key_subset_stops_at_first_mismatch (capacity : Z)
    (fuel : nat) (e : Env) (s : State) (n j : Z) (keys key stored : list byte) :
  NUM_GUARDIANS s = Value (Uint n) s →
  0 ≤ j < get_sig_count_in_step capacity (group_index e) n →
  get_sig_count_in_step capacity (group_index e) n * 64 ≤ uint64_max →
  (Z.to_nat j < fuel)%nat →
  (∀ k, 0 ≤ k < j → key_matches e s k) →
  application_args (Txn e) !! 1%nat = Some keys →
  Extract keys (j * 64) 64 = Some key →
  globals s !! Itob j = Some (Bytes stored) →
  stored ≠ key →
  check_guardian_key_subset capacity fuel e s
  = Value 0 (mkState (<[SLOTID_TEMP_0 := Uint j]> (scratch s)) (globals s)).
Proof.
  intros Hn Hj Hmax Hfuel Hkeys Harg Hkey Hstored Hne.
  replace fuel with (Z.to_nat j + S (fuel - Z.to_nat j - 1))%nat by lia.
  by eapply check_guardian_key_subset_mismatch.
Qed.

Lemma check_guardian_key_subset_stops_at_first_mismatch_witness :
  check_guardian_key_subset 2 1
    (Fixture.last_step Fixture.keys23 (Fixture.payload 3 4)) Fixture.fresh
  = Value 0 (mkState (<[SLOTID_TEMP_0 := Uint 0]> (scratch Fixture.fresh))
                     (globals Fixture.fresh)).
Proof.
  apply (check_guardian_key_subset_stops_at_first_mismatch 2 1
           (Fixture.last_step Fixture.keys23 (Fixture.payload 3 4))
           Fixture.fresh 4 0 Fixture.keys23 (Fixture.guardian_key 2)
           (Fixture.guardian_key 0)).
  - reflexivity.
  - vm_compute. split; discriminate || reflexivity.
  - vm_compute. discriminate.
  - vm_compute. lia.
  - intros k Hk. lia.
  - reflexivity.
  - vm_compute. reflexivity.
  - vm_compute. reflexivity.
  - vm_compute. discriminate.
Defined.

(** X15. When the keys before position [j] match, and the registry has no
    byte string under index [j] (the key is missing or holds a uint64) or
    the argument is too short to hold a key at position [j],
    [check_guardian_key_subset] fails: it does not return 0. *)
Theorem check_guardian_key_subset_fails_on_missing_key (capacity : Z)
    (fuel : nat) (e : Env) (s : State) (n j : Z) :
  NUM_GUARDIANS s = Value (Uint n) s →
  0 ≤ j < get_sig_count_in_step capacity (group_index e) n →
  get_sig_count_in_step capacity (group_index e) n * 64 ≤ uint64_max →
  (Z.to_nat j < fuel)%nat →
  (∀ k, 0 ≤ k < j → key_matches e s k) →
  (∀ stored, globals s !! Itob j ≠ Some (Bytes stored))
  ∨ (∀ keys, application_args (Txn e) !! 1%nat = Some keys →
             Len keys < j * 64 + 64) →
  check_guardian_key_subset capacity fuel e s = Failed.
Proof.
  intros Hn Hj Hmax Hfuel Hkeys Hcause.
  replace fuel with (Z.to_nat j + S (fuel - Z.to_nat j - 1))%nat by lia.
  by eapply check_guardian_key_subset_fails.
Qed.

Lemma check_guardian_key_subset_fails_on_missing_key_witness :
  check_guardian_key_subset 2 3 (Fixture.first_step (Fixture.payload 3 4))
    (mkState ∅ {[ bytes_of_string "gscount" := Uint 4;
                  Itob 0 := Bytes (Fixture.guardian_key 0) ]})
  = Failed.
Proof.
  apply (check_guardian_key_subset_fails_on_missing_key 2 3
           (Fixture.first_step (Fixture.payload 3 4))
           (mkState ∅ {[ bytes_of_string "gscount" := Uint 4;
                         Itob 0 := Bytes (Fixture.guardian_key 0) ]})
           4 1).
  - reflexivity.
  - vm_compute. split; discriminate || reflexivity.
  - vm_compute. discriminate.
  - vm_compute. lia.
  - intros k Hk. assert (k = 0) as -> by lia.
    exists Fixture.keys01, (Fixture.guardian_key 0).
    repeat split; vm_compute; reflexivity.
  - left. intros stored. vm_compute. discriminate.
Defined.

(** X16. However it ends, [check_guardian_key_subset] writes nothing but
    scratch slot 251: when it returns a value the global state and every
    other scratch slot are as before. *)
Theorem check_guardian_key_subset_writes_only_its_counter (capacity : Z)
    (fuel : nat) (e : Env) (s s' : State) (c : Z) :
  check_guardian_key_subset capacity fuel e s = Value c s' →
  globals s' = globals s
  ∧ ∀ slot, slot ≠ SLOTID_TEMP_0 → scratch s' !! slot = scratch s !! slot.
Proof.
  intros Hr.
  pose proof (framed_check_guardian_key_subset capacity fuel e s) as Hframe.
  by rewrite Hr in Hframe.
Qed.

Lemma check_guardian_key_subset_writes_only_its_counter_witness :
  globals (mkState {[ SLOTID_TEMP_0 := Uint 0 ]} Fixture.registry)
  = globals Fixture.fresh.
Proof.
  apply (check_guardian_key_subset_writes_only_its_counter 2 10
           (Fixture.last_step Fixture.keys23 (Fixture.payload 3 4))
           Fixture.fresh
           (mkState {[ SLOTID_TEMP_0 := Uint 0 ]} Fixture.registry) 0).
  vm_compute. reflexivity.
Defined.

(** ** Encoding of integers *)

Lemma Z_of_byte_bounds (b : byte) : 0 ≤ Z_of_byte b < 256.
Proof.
  unfold Z_of_byte. pose proof (Byte.to_N_bounded b). lia.
Qed.

Lemma Z_of_byte_of_Z (z : Z) : Z_of_byte (byte_of_Z z) = z mod 256.
Proof.
  unfold Z_of_byte, byte_of_Z.
  pose proof (Z.mod_pos_bound z 256 ltac:(lia)) as Hz.
  destruct (Byte.of_N (Z.to_N (z mod 256))) as [b | ] eqn:Hb.
  - apply Byte.to_of_N in Hb. rewrite Hb. lia.
  - apply Byte.of_N_None_iff in Hb. lia.
Qed.

Lemma be_decode_snoc (l : list byte) (b : byte) :
  be_decode (l ++ [b]) = be_decode l * 256 + Z_of_byte b.
Proof. unfold be_decode. by rewrite fold_left_app. Qed.

Lemma be_encode_length (k : nat) (z : Z) : length (be_encode k z) = k.
Proof.
  revert z. induction k as [ | k IH]; intros z; [ done | ].
  simpl. rewrite length_app, IH. simpl. lia.
Qed.

Lemma be_decode_encode (k : nat) (z : Z) :
  be_decode (be_encode k z) = z mod 256 ^ Z.of_nat k.
Proof.
  revert z. induction k as [ | k IH]; intros z.
  - simpl. by rewrite Z.mod_1_r.
  - simpl be_encode. rewrite be_decode_snoc, IH, Z_of_byte_of_Z.
    rewrite Nat2Z.inj_succ, Z.pow_succ_r by lia.
    rewrite Z.rem_mul_r by lia. lia.
Qed.

Lemma Btoi_Itob (n : Z) : 0 ≤ n ≤ uint64_max → Btoi (Itob n) = Some n.
Proof.
  intros Hn. unfold Btoi, Itob. rewrite be_encode_length.
  destruct (Nat.leb_spec 8 8); [ | lia ].
  rewrite be_decode_encode. f_equal.
  apply Z.mod_small. unfold uint64_max in Hn. lia.
Qed.

(** ** More on the guardian-set size check *)

(** X17. When the registry holds the guardian count [n] and the third
    argument is the 8-byte encoding [Itob m] of a uint64 [m],
    [check_guardian_set_size] returns 1 if [m = n] and 0 otherwise, and
    leaves the state as it is. *)
Theorem check_guardian_set_size_decodes_itob (e : Env) (s : State) (n m : Z) :
  globals s !! bytes_of_string "gscount" = Some (Uint n) →
  0 ≤ m ≤ uint64_max →
  application_args (Txn e) !! 2%nat = Some (Itob m) →
  check_guardian_set_size e s = Value (Z.b2z (n =? m)) s.
Proof.
  intros Hn Hm Harg.
  unfold check_guardian_set_size, NUM_GUARDIANS, VERIFY_ARG_GUARDIAN_SET_SIZE,
    application_arg, globalGet.
  unfold_monad. rewrite Hn, Harg, (Btoi_Itob m Hm). done.
Qed.

Lemma check_guardian_set_size_decodes_itob_witness :
  check_guardian_set_size (Fixture.first_step (Fixture.payload 3 4)) Fixture.fresh
  = Value (Z.b2z (4 =? 4)) Fixture.fresh.
Proof.
  apply (check_guardian_set_size_decodes_itob
           (Fixture.first_step (Fixture.payload 3 4)) Fixture.fresh 4 4).
  - reflexivity.
  - vm_compute. split; discriminate.
  - reflexivity.
Defined.

(** X18. [check_guardian_set_size] fails, rather than returning 0, when
    the call has no third argument, when that argument is longer than 8
    bytes, or when [gscount] holds a byte string. *)
Theorem check_guardian_set_size_fails (e : Env) (s : State) :
  application_args (Txn e) !! 2%nat = None
  ∨ (∃ a, application_args (Txn e) !! 2%nat = Some a ∧ (8 < length a)%nat)
  ∨ (∃ b, globals s !! bytes_of_string "gscount" = Some (Bytes b)) →
  check_guardian_set_size e s = Failed.
Proof.
  unfold check_guardian_set_size, NUM_GUARDIANS, VERIFY_ARG_GUARDIAN_SET_SIZE,
    application_arg, globalGet.
  unfold_monad.
  intros [Harg | [(a & Harg & Hlen) | (b & Hb)]].
  - by rewrite Harg.
  - by rewrite Harg, Btoi_long.
  - rewrite Hb. simpl.
    destruct (application_args (Txn e) !! 2%nat) as [a | ]; [ | done ].
    by destruct (Btoi a).
Qed.

Lemma check_guardian_set_size_fails_witness :
  check_guardian_set_size
    (Fixture.setvphash_call Fixture.owner
       [bytes_of_string "verify"; Fixture.keys01; Fixture.new_hash])
    Fixture.fresh
  = Failed.
Proof.
  apply (check_guardian_set_size_fails
           (Fixture.setvphash_call Fixture.owner
              [bytes_of_string "verify"; Fixture.keys01; Fixture.new_hash])
           Fixture.fresh).
  right. left. exists Fixture.new_hash.
  split; [ reflexivity | vm_compute; lia ].
Defined.

(** ** More on the payload router *)

(** X20. [commit_vaa] fails on every payload: the emitter address is read
    as a 32-byte field and passed to [Btoi], which takes at most 8 bytes.
    No payload reaches a handler or the final [Return(Int(0))]. *)
Theorem commit_vaa_fails_on_every_payload (e : Env) (s : State) :
  commit_vaa e s = Failed.
Proof. apply commit_vaa_fails. Qed.

(** X21. The emitter chain is read from bytes 8 and 9 of the payload, most
    significant byte first: for a payload of at least 10 bytes [chainId]
    yields a value below 65536 and leaves the state as it is; for a shorter
    payload it fails. *)
Theorem chainId_reads_two_bytes (e : Env) (s : State) :
  (10 ≤ Len (note (Txn e)) →
   ∃ hi lo, note (Txn e) !! 8%nat = Some hi
            ∧ note (Txn e) !! 9%nat = Some lo
            ∧ chainId e s = Value (Z_of_byte hi * 256 + Z_of_byte lo) s
            ∧ 0 ≤ Z_of_byte hi * 256 + Z_of_byte lo < 65536)
  ∧ (Len (note (Txn e)) < 10 → chainId e s = Failed).
Proof.
  unfold chainId, emitter_chain_field, VERIFY_ARG_PAYLOAD,
    VAA_RECORD_EMITTER_CHAIN_POS, VAA_RECORD_EMITTER_CHAIN_LEN.
  unfold_monad. split; intros Hlen.
  - rewrite Extract_Some by lia.
    unfold Len in Hlen.
    destruct (note (Txn e) !! 8%nat) as [hi | ] eqn:Hhi;
      [ | apply lookup_ge_None in Hhi; lia ].
    destruct (note (Txn e) !! 9%nat) as [lo | ] eqn:Hlo;
      [ | apply lookup_ge_None in Hlo; lia ].
    exists hi, lo. split; [ done | ]. split; [ done | ].
    assert (take (Z.to_nat 2) (drop (Z.to_nat 8) (note (Txn e))) = [hi; lo])
      as ->.
    { apply list_eq. intros i.
      destruct i as [ | [ | i]]; simpl.
      - rewrite lookup_take_lt by lia. by rewrite lookup_drop.
      - rewrite lookup_take_lt by lia. by rewrite lookup_drop.
      - rewrite lookup_take_ge by lia. done. }
    split; [ done | ].
    pose proof (Z_of_byte_bounds hi). pose proof (Z_of_byte_bounds lo). lia.
  - by rewrite Extract_None by lia.
Qed.

Lemma chainId_reads_two_bytes_witness :
  chainId (Fixture.first_step []) Fixture.fresh = Failed.
Proof.
  apply (chainId_reads_two_bytes (Fixture.first_step []) Fixture.fresh).
  vm_compute. reflexivity.
Defined.

(** ** More on the finalization audit *)

Lemma For_loop_body_fails (cond : M Z) (step body : M unit) (s : State)
    (c : Z) (fuel : nat) :
  cond s = Value c s → c ≠ 0 →
  body s = Failed →
  For_loop (S fuel) cond step body s = Failed.
Proof.
  intros Hcond Hc Hbody. simpl. unfold_monad. rewrite Hcond.
  destruct (Z.eqb_spec c 0); [ done | ].
  by rewrite Hbody.
Qed.

Lemma audit_body_outcome (e : Env) (s : State) :
  let body :=
    (i ← SLOT_TEMP_load;
     t ← Gtxn e i;
     t' ← Gtxn e i;
     v ← ImportScratchValue e i SLOTID_VERIFIED_BIT;
     bit ← lift (GetBit v i);
     Assert (And [Z.b2z (bool_decide (type_enum t = ApplicationCall));
                  Z.b2z (application_id t' =? application_id (Txn e));
                  Z.b2z (bit =? 1)])) in
  (audit_index_0_passes e → body (audit_state s) = Value tt (audit_state s))
  ∧ (¬ audit_index_0_passes e → body (audit_state s) = Failed).
Proof.
  intros body. subst body. unfold mbind, M_bind, bind.
  rewrite audit_counter.
  unfold ImportScratchValue, Gtxn, mbind, M_bind, bind, lift. simpl.
  change (Z.to_nat 0) with 0%nat.
  split.
  - intros (t & Ht & Hty & Hidx & Hid & Hbit).
    rewrite Ht. simpl. rewrite Hty, Hid, Z.eqb_refl.
    destruct (Z.ltb_spec 0 (group_index e)); [ | lia ].
    rewrite bool_decide_eq_true_2 by done. simpl.
    unfold ret. by rewrite Hbit.
  - intros Hno.
    destruct (group e !! 0%nat) as [t | ] eqn:Ht; [ | done ].
    simpl.
    destruct (decide (type_enum t = ApplicationCall)) as [Hty | Hty];
      [ | by rewrite bool_decide_eq_false_2 ].
    rewrite bool_decide_eq_true_2 by done.
    destruct (Z.ltb_spec 0 (group_index e)) as [Hidx | Hidx]; [ | done ].
    simpl. unfold ret.
    destruct (GetBit _ 0) as [bit | ] eqn:Hbit; [ | done ].
    unfold Assert, And. simpl.
    destruct (Z.eqb_spec (application_id t) (application_id (Txn e)))
      as [Hid | Hid]; [ | done ].
    destruct (Z.eqb_spec bit 1) as [-> | Hb]; [ | done ].
    exfalso. apply Hno. by exists t.
Qed.

Lemma check_final_verification_state_rejects (fuel : nat) (e : Env) (s : State) :
  ¬ audit_index_0_passes e →
  check_final_verification_state (S fuel) e s = Failed.
Proof.
  intros Hno. unfold check_final_verification_state.
  eapply Subroutine_For_stops; [ reflexivity | left; split; [ done | ] ].
  eapply For_loop_body_fails with (c := 1);
    [ apply audit_cond | lia | by apply (proj2 (audit_body_outcome e s)) ].
Qed.

(** X22. The finalization audit ends in one of two ways.  When
    transaction 0 of the group is an earlier application call of the same
    application whose slot 254 has bit 0 set, the audit exhausts any
    budget.  Otherwise it fails at its first assertion. *)
Theorem check_final_verification_state_outcome (fuel : nat) (e : Env) (s : State) :
  (audit_index_0_passes e →
   check_final_verification_state fuel e s = OutOfBudget)
  ∧ (¬ audit_index_0_passes e →
     check_final_verification_state (S fuel) e s = Failed).
Proof.
  split.
  - intros Hpass. unfold check_final_verification_state.
    eapply Subroutine_For_stops; [ reflexivity | right; split; [ done | ] ].
    eapply For_loop_stuck with (c := 1);
      [ apply audit_cond | lia
      | by apply (proj1 (audit_body_outcome e s)) | apply audit_step ].
  - apply check_final_verification_state_rejects.
Qed.

Lemma check_final_verification_state_outcome_witness :
  check_final_verification_state 5
    (Fixture.last_step Fixture.keys23 (Fixture.payload 3 4)) Fixture.fresh
  = OutOfBudget.
Proof.
  apply (check_final_verification_state_outcome 5
           (Fixture.last_step Fixture.keys23 (Fixture.payload 3 4))
           Fixture.fresh).
  exists (Fixture.step Fixture.keys01 (Fixture.payload 3 4) 1).
  repeat split; vm_compute; reflexivity.
Defined.

(** X23. Run by the first transaction of a group, in particular by the
    only transaction of a group of one, the finalization audit fails: it
    imports the scratch space of transaction 0, which must be an earlier
    transaction. *)
Theorem check_final_verification_state_fails_at_index_0 (fuel : nat)
    (e : Env) (s : State) :
  earlier e = [] →
  check_final_verification_state (S fuel) e s = Failed.
Proof.
  intros He. apply check_final_verification_state_rejects.
  intros (t & _ & _ & Hidx & _). unfold group_index in Hidx.
  rewrite He in Hidx. simpl in Hidx. lia.
Qed.

Lemma check_final_verification_state_fails_at_index_0_witness :
  check_final_verification_state 1
    (Fixture.first_step (Fixture.payload 3 4)) Fixture.fresh = Failed.
Proof.
  apply (check_final_verification_state_fails_at_index_0 0
           (Fixture.first_step (Fixture.payload 3 4)) Fixture.fresh).
  reflexivity.
Defined.

(** ** The state after an approved step *)

Lemma check_guardian_key_subset_needs_budget (capacity : Z) (fuel : nat)
    (e : Env) (s : State) (n : Z) :
  NUM_GUARDIANS s = Value (Uint n) s →
  get_sig_count_in_step capacity (group_index e) n * 64 ≤ uint64_max →
  (∀ k, 0 ≤ k < get_sig_count_in_step capacity (group_index e) n →
        key_matches e s k) →
  (fuel ≤ Z.to_nat (get_sig_count_in_step capacity (group_index e) n))%nat →
  check_guardian_key_subset capacity fuel e s = OutOfBudget.
Proof.
  intros Hn Hmax Hkeys Hfuel.
  pose proof (check_guardian_key_subset_run capacity e 0 s n (Z.of_nat fuel) Hn)
    as Hrun.
  rewrite Nat2Z.id, Nat.add_0_r in Hrun.
  assert (0 ≤ get_sig_count_in_step capacity (group_index e) n) as Hc
    by (unfold get_sig_count_in_step; lia).
  rewrite Hrun; [ done | lia | done | ].
  intros k Hk. apply Hkeys. lia.
Qed.

(** X24. An approved [verify] call returns 1 and ends in a state that is
    fully determined: the global state is unchanged, slot 254 holds bit
    [group_index] alone, slot 251 holds the signature count of the step, and
    no other scratch slot is written. *)
Theorem verify_step_final_state (capacity : Z) (fuel : nat) (e : Env)
    (s : State) (n : Z) :
  NUM_GUARDIANS s = Value (Uint n) s →
  get_sig_count_in_step capacity (group_index e) n * 64 ≤ uint64_max →
  approved (verify capacity fuel e s) →
  verify capacity fuel e s
  = Returned 1
      (mkState
         (<[SLOTID_VERIFIED_BIT := Uint (2 ^ group_index e)]>
            (<[SLOTID_TEMP_0 :=
                 Uint (get_sig_count_in_step capacity (group_index e) n)]>
               (<[SLOTID_VERIFIED_BIT := Uint 0]> (scratch s))))
         (globals s)).
Proof.
  intros Hn Hmax (v & s' & Hr & _).
  pose proof Hr as Hr'.
  apply verify_inv in Hr'
    as (n' & c5 & s3 & Hn' & _ & _ & _ & _ & H5 & Hc5 & Hi & _ & -> & ->).
  rewrite Hn in Hn'. injection Hn' as <-.
  assert (NUM_GUARDIANS (verify_state s) = Value (Uint n) (verify_state s))
    as Hnv.
  { unfold NUM_GUARDIANS, globalGet in *. simpl. congruence. }
  assert (∀ k, 0 ≤ k < get_sig_count_in_step capacity (group_index e) n →
               key_matches e (verify_state s) k) as Hkeys.
  { intros k Hk.
    eapply check_guardian_key_subset_accepts; [ exact Hnv | exact H5 | done | done ]. }
  destruct (Nat.le_gt_cases fuel
              (Z.to_nat (get_sig_count_in_step capacity (group_index e) n)))
    as [Hle | Hgt].
  { rewrite (check_guardian_key_subset_needs_budget capacity fuel e
               (verify_state s) n) in H5; done. }
  rewrite (check_guardian_key_subset_accepts_matching capacity fuel e
             (verify_state s) n) in H5; try done.
  injection H5 as <- <-. rewrite Hr. simpl.
  by rewrite Z.setbit_spec', Z.lor_0_l.
Qed.

Lemma verify_step_final_state_witness :
  verify 2 3 (Fixture.first_step (Fixture.payload 3 4)) Fixture.fresh
  = Returned 1
      (mkState
         (<[SLOTID_VERIFIED_BIT :=
              Uint (2 ^ group_index (Fixture.first_step (Fixture.payload 3 4)))]>
            (<[SLOTID_TEMP_0 :=
                 Uint (get_sig_count_in_step 2
                         (group_index (Fixture.first_step (Fixture.payload 3 4)))
                         4)]>
               (<[SLOTID_VERIFIED_BIT := Uint 0]> (scratch Fixture.fresh))))
         (globals Fixture.fresh)).
Proof.
  apply (verify_step_final_state 2 3
           (Fixture.first_step (Fixture.payload 3 4)) Fixture.fresh 4).
  - reflexivity.
  - vm_compute. discriminate.
  - exists 1, (mkState {[ SLOTID_TEMP_0 := Uint 2; SLOTID_VERIFIED_BIT := Uint 1 ]}
                       Fixture.registry).
    split; [ vm_compute; reflexivity | lia ].
Defined.
